(** * repo_scorecard: a shallow embedding of the check and scoring engine

    The development follows [repo_scorecard.py].  The repository on disk is
    an explicit tree with permission bits; the [pathlib] calls the program
    makes ([is_file], [is_dir], [iterdir], [rglob], [read_text],
    [read_bytes]) are functions on that tree, with the behaviour of CPython
    3.9 to 3.11 on a POSIX system; exceptions are values of an error monad.
    File names and file contents are byte strings; case conversion is the
    ASCII one, and decoding with [errors="ignore"] is the identity, so the
    model speaks about repositories whose names and scanned contents are
    ASCII. *)

From Stdlib Require Import Bool Arith List ZArith Lia Permutation.
From Stdlib Require Import Ascii String.
From Stdlib Require Import DecimalString.
Import ListNotations.

Local Open Scope string_scope.
Local Open Scope list_scope.

(* ================================================================= *)
(** ** Python strings *)

Module PyStr.

Definition upper_char (c : ascii) : ascii :=
  let n := nat_of_ascii c in
  if (97 <=? n)%nat && (n <=? 122)%nat then ascii_of_nat (n - 32) else c.

Definition lower_char (c : ascii) : ascii :=
  let n := nat_of_ascii c in
  if (65 <=? n)%nat && (n <=? 90)%nat then ascii_of_nat (n + 32) else c.

Fixpoint smap (f : ascii -> ascii) (s : string) : string :=
  match s with
  | EmptyString => EmptyString
  | String c s' => String (f c) (smap f s')
  end.

(** [s.upper()] and [s.lower()], as they act on ASCII text; statements
    that depend on more than that carry the hypothesis [ascii_text]. *)
Definition upper : string -> string := smap upper_char.
Definition lower : string -> string := smap lower_char.

(** [s.startswith(p)]. *)
Definition startswith (s p : string) : bool := String.prefix p s.

(** [needle in hay]. *)
Fixpoint contains (needle hay : string) : bool :=
  String.prefix needle hay ||
  match hay with
  | EmptyString => false
  | String _ hay' => contains needle hay'
  end.

(** [s[:n]]. *)
Fixpoint take (n : nat) (s : string) : string :=
  match n, s with
  | O, _ => EmptyString
  | S _, EmptyString => EmptyString
  | S n', String c s' => String c (take n' s')
  end.

(** [s[n:]]. *)
Fixpoint drop (n : nat) (s : string) : string :=
  match n, s with
  | O, _ => s
  | S _, EmptyString => EmptyString
  | S n', String _ s' => drop n' s'
  end.

(** [s.rfind(".")], with [None] for -1. *)
Fixpoint rfind_dot (s : string) : option nat :=
  match s with
  | EmptyString => None
  | String c s' =>
      match rfind_dot s' with
      | Some i => Some (S i)
      | None => if Ascii.eqb c "." then Some O else None
      end
  end.

(** [s.replace(a, b)] for one-character [a] and [b]. *)
Definition replace_char (a b : ascii) : string -> string :=
  smap (fun c => if Ascii.eqb c a then b else c).

(** [x in xs] for a tuple or set of strings. *)
Definition mem (x : string) (xs : list string) : bool :=
  existsb (String.eqb x) xs.

(** [str(n)] for an integer. *)
Definition str_int (z : Z) : string := NilZero.string_of_int (Z.to_int z).

End PyStr.

(* ================================================================= *)
(** ** Exceptions *)

(** The subclasses of [OSError] the file system calls can raise. *)
Inductive exn : Type :=
| PermissionError
| FileNotFoundError
| NotADirectoryError
| IsADirectoryError.

Inductive result (A : Type) : Type :=
| Ok (a : A)
| Raise (e : exn).

Arguments Ok {A} a.
Arguments Raise {A} e.

Definition bind {A B : Type} (m : result A) (k : A -> result B) : result B :=
  match m with
  | Ok a => k a
  | Raise e => Raise e
  end.

Notation "x <- m ;; k" := (bind m (fun x => k))
  (at level 61, m at next level, right associativity).

(** [try: m  except (OSError, PermissionError): h]: every exception of the
    model is an [OSError]. *)
Definition try_oserror {A : Type} (m : result A) (h : result A) : result A :=
  match m with
  | Ok a => Ok a
  | Raise _ => h
  end.

(* ================================================================= *)
(** ** The repository on disk *)

(** A regular file holds its content, or [None] when opening it is refused
    (mode 000).  A directory carries its read bit (listing) and its search
    bit (access to what lies under it) and its entries in listing order. *)
#[warnings="-register-all"]
Inductive node : Type :=
| File (content : option string)
| Dir (r x : bool) (entries : list (string * node)).

(** A path below the root is the list of its components. *)
Definition path : Type := list string.

Record repo : Type := mkRepo {
  root_parts : list string;          (* [root.parts], root being absolute *)
  root_r : bool;
  root_x : bool;
  root_entries : list (string * node)
}.

Definition root_node (fs : repo) : node :=
  Dir (root_r fs) (root_x fs) (root_entries fs).

(** The repository whose root is [Dir r x es], at the same place. *)
Definition with_root (fs : repo) (n : node) : option repo :=
  match n with
  | Dir r x es => Some (mkRepo (root_parts fs) r x es)
  | File _ => None
  end.

Module Pathlib.

Fixpoint find_entry (c : string) (es : list (string * node)) : option node :=
  match es with
  | [] => None
  | (n, m) :: es' => if String.eqb n c then Some m else find_entry c es'
  end.

Inductive lookup_result : Type :=
| Found (n : node)
| Missing                 (* ENOENT or ENOTDIR *)
| Denied.                 (* EACCES *)

(** Path resolution from a directory: every directory that is walked
    through needs its search bit. *)
Fixpoint lookup (n : node) (p : path) : lookup_result :=
  match p with
  | [] => Found n
  | c :: p' =>
      match n with
      | File _ => Missing
      | Dir _ x es =>
          if x then
            match find_entry c es with
            | Some m => lookup m p'
            | None => Missing
            end
          else Denied
      end
  end.

(** [p.is_file()]: ENOENT and ENOTDIR give [False], EACCES is raised. *)
Definition is_file (fs : repo) (p : path) : result bool :=
  match lookup (root_node fs) p with
  | Found (File _) => Ok true
  | Found (Dir _ _ _) => Ok false
  | Missing => Ok false
  | Denied => Raise PermissionError
  end.

(** [p.is_dir()]. *)
Definition is_dir (fs : repo) (p : path) : result bool :=
  match lookup (root_node fs) p with
  | Found (Dir _ _ _) => Ok true
  | Found (File _) => Ok false
  | Missing => Ok false
  | Denied => Raise PermissionError
  end.

(** [p.iterdir()], the names in listing order. *)
Definition iterdir (fs : repo) (p : path) : result (list string) :=
  match lookup (root_node fs) p with
  | Found (Dir r _ es) => if r then Ok (map fst es) else Raise PermissionError
  | Found (File _) => Raise NotADirectoryError
  | Missing => Raise FileNotFoundError
  | Denied => Raise PermissionError
  end.

(** [p.read_bytes()]; and [p.read_text(encoding="utf-8", errors="ignore")]
    on a file of plain text, where decoding and newline translation change
    nothing.  Statements about what [read_text] returns carry the
    hypothesis [plain_contents]. *)
Definition read (fs : repo) (p : path) : result string :=
  match lookup (root_node fs) p with
  | Found (File (Some s)) => Ok s
  | Found (File None) => Raise PermissionError
  | Found (Dir _ _ _) => Raise IsADirectoryError
  | Missing => Raise FileNotFoundError
  | Denied => Raise PermissionError
  end.

(** The directories [rglob] starts from, in pre-order, each with the names
    it lists.  [ok] tells that every directory above has its search bit;
    a directory that cannot be scanned is passed over silently, as
    [pathlib] does.  This is the walk that completes: on a tree beyond
    [within_limits] CPython gives up with [RecursionError] or another
    error, so statements that the walk returns carry that hypothesis. *)
Fixpoint iterate_directories (ok : bool) (prefix : path) (n : node)
  : list (path * list string) :=
  match n with
  | File _ => []
  | Dir r x es =>
      if ok && r then
        (prefix, map fst es) ::
        (fix go (l : list (string * node)) : list (path * list string) :=
           match l with
           | [] => []
           | (c, m) :: l' =>
               iterate_directories (ok && x) (prefix ++ [c]) m ++ go l'
           end) es
      else []
  end.

(** [root.rglob("*")]: for every starting directory, its entries. *)
Definition rglob (fs : repo) : list path :=
  flat_map (fun d => map (fun c => fst d ++ [c]) (snd d))
           (iterate_directories true [] (root_node fs)).

(** [p.name], [p.suffix] and [p.stem]. *)
Definition basename (p : path) : string := last p "".

Definition has_suffix (nm : string) : option nat :=
  match PyStr.rfind_dot nm with
  | Some i => if (0 <? i)%nat && (i <? String.length nm - 1)%nat
              then Some i else None
  | None => None
  end.

Definition suffix (p : path) : string :=
  match has_suffix (basename p) with
  | Some i => PyStr.drop i (basename p)
  | None => ""
  end.

Definition stem (p : path) : string :=
  match has_suffix (basename p) with
  | Some i => PyStr.take i (basename p)
  | None => basename p
  end.

(** [str(p.relative_to(root))]. *)
Definition str (p : path) : string := String.concat "/" p.

(** [p.parts] for [p] below the root. *)
Definition parts (fs : repo) (p : path) : list string := root_parts fs ++ p.

End Pathlib.

(* ================================================================= *)
(** ** Regular expressions ([re]) *)

Module Re.

Inductive re : Type :=
| Nul                          (* no string *)
| Eps                          (* the empty string *)
| Cls (f : ascii -> bool)      (* one character of a class *)
| Cat (a b : re)
| Alt (a b : re)
| Star (a : re).

Fixpoint nullable (r : re) : bool :=
  match r with
  | Nul => false
  | Eps => true
  | Cls _ => false
  | Cat a b => nullable a && nullable b
  | Alt a b => nullable a || nullable b
  | Star _ => true
  end.

Definition cat (a b : re) : re :=
  match a, b with
  | Nul, _ => Nul
  | _, Nul => Nul
  | Eps, _ => b
  | _, _ => Cat a b
  end.

Definition alt (a b : re) : re :=
  match a, b with
  | Nul, _ => b
  | _, Nul => a
  | _, _ => Alt a b
  end.

(** Brzozowski derivative. *)
Fixpoint deriv (c : ascii) (r : re) : re :=
  match r with
  | Nul => Nul
  | Eps => Nul
  | Cls f => if f c then Eps else Nul
  | Cat a b =>
      if nullable a then alt (cat (deriv c a) b) (deriv c b)
      else cat (deriv c a) b
  | Alt a b => alt (deriv c a) (deriv c b)
  | Star a => cat (deriv c a) (Star a)
  end.

(** [fullmatch]. *)
Fixpoint matches (r : re) (s : string) : bool :=
  match s with
  | EmptyString => nullable r
  | String c s' => matches (deriv c r) s'
  end.

Definition any : re := Cls (fun _ => true).

(** [pattern.search(text)] is not [None]: some substring matches. *)
Definition search (r : re) (s : string) : bool :=
  matches (Cat (Star any) (Cat r (Star any))) s.

(** A literal character under [re.I], on ASCII text. *)
Definition chr_i (c : ascii) : re :=
  Cls (fun a => Ascii.eqb (PyStr.lower_char a) (PyStr.lower_char c)).

(** A literal string under [re.I]. *)
Fixpoint lit_i (s : string) : re :=
  match s with
  | EmptyString => Eps
  | String c s' => Cat (chr_i c) (lit_i s')
  end.

Definition opt (r : re) : re := Alt r Eps.
Definition plus (r : re) : re := Cat r (Star r).

(** [\d] on ASCII text. *)
Definition is_digit (c : ascii) : bool :=
  let n := nat_of_ascii c in (48 <=? n)%nat && (n <=? 57)%nat.

(** [\s] on ASCII text: tab to carriage return, the four separators
    0x1c to 0x1f, and the space. *)
Definition is_space (c : ascii) : bool :=
  let n := nat_of_ascii c in
  ((9 <=? n)%nat && (n <=? 13)%nat) || ((28 <=? n)%nat && (n <=? 32)%nat).

Definition dquote : ascii := "034"%char.
Definition squote : ascii := "039"%char.

Definition digit : re := Cls is_digit.
Definition space : re := Cls is_space.
Definition digit_or_dot : re := Cls (fun c => is_digit c || Ascii.eqb c ".").
Definition quote : re :=
  Cls (fun c => Ascii.eqb c dquote || Ascii.eqb c squote).

Definition seq (rs : list re) : re := fold_right Cat Eps rs.

End Re.

(* ================================================================= *)
(** ** Constants and the result record *)

(** [IGNORED_DIRS]. *)
Definition IGNORED_DIRS : list string :=
  [".git"; "node_modules"; "bin"; "obj"; "dist"; "build"; ".venv"].

Definition KiB (n : nat) : nat := n * 1024.

(** [MAX_READ_BYTES = 64 * 1024]. *)
Definition MAX_READ_BYTES : nat := KiB 64.

Record CheckResult : Type := mkCheckResult {
  id : string;
  name : string;
  weight : Z;
  passed : bool;
  evidence : string
}.

(* ================================================================= *)
(** ** The repository walker *)

Import Pathlib.

(** [any(part in p.parts for part in IGNORED_DIRS)]. *)
Definition ignored (fs : repo) (p : path) : bool :=
  existsb (fun part => PyStr.mem part (parts fs p)) IGNORED_DIRS.

(** The body of the [for] loop of [walk_repo] over what the generator still
    yields; [acc] is [paths] in reverse.  An exception leaves the loop with
    the paths appended so far. *)
Fixpoint walk_loop (fs : repo) (it : list path) (acc : list path)
  : list path * option exn :=
  match it with
  | [] => (rev acc, None)
  | p :: it' =>
      match is_file fs p with
      | Raise e => (rev acc, Some e)
      | Ok false => walk_loop fs it' acc
      | Ok true =>
          if ignored fs p then walk_loop fs it' acc
          else walk_loop fs it' (p :: acc)
      end
  end.

(** [walk_repo]: the [try] encloses the whole loop, and [except
    PermissionError: pass] falls through to [return paths]. *)
Definition walk_repo (fs : repo) : result (list path) :=
  match walk_loop fs (rglob fs) [] with
  | (paths, None) => Ok paths
  | (paths, Some PermissionError) => Ok paths
  | (_, Some e) => Raise e
  end.

(* ================================================================= *)
(** ** The ten checks *)

Definition result_of (i n : string) (w : Z) (ev : option string)
  : CheckResult :=
  match ev with
  | Some e => mkCheckResult i n w true e
  | None => mkCheckResult i n w false ""
  end.

(** [check_readme]. *)
Definition readme_result := result_of "readme" "README existe" 10.

Definition readme_name (n : string) : bool :=
  let name := PyStr.upper n in
  String.eqb name "README.MD"
  || (PyStr.startswith name "README." && (7 <? String.length name)%nat).

Fixpoint check_readme_loop (fs : repo) (it : list string)
  : result CheckResult :=
  match it with
  | [] => Ok (readme_result None)
  | n :: it' =>
      f <- is_file fs [n] ;;
      if negb f then check_readme_loop fs it'
      else if readme_name n then Ok (readme_result (Some n))
      else check_readme_loop fs it'
  end.

Definition check_readme (fs : repo) : result CheckResult :=
  it <- iterdir fs [] ;; check_readme_loop fs it.

(** [check_license]. *)
Definition license_result := result_of "license" "LICENSE existe" 5.

Fixpoint check_license_loop (fs : repo) (it : list string)
  : result CheckResult :=
  match it with
  | [] => Ok (license_result None)
  | n :: it' =>
      f <- is_file fs [n] ;;
      if f && PyStr.startswith (PyStr.upper n) "LICENSE"
      then Ok (license_result (Some n))
      else check_license_loop fs it'
  end.

Definition check_license (fs : repo) : result CheckResult :=
  it <- iterdir fs [] ;; check_license_loop fs it.

(** [check_codeowners]. *)
Definition codeowners_result := result_of "codeowners" "CODEOWNERS existe" 10.

Fixpoint check_codeowners_loop (fs : repo) (candidates : list path)
  : result CheckResult :=
  match candidates with
  | [] => Ok (codeowners_result None)
  | p :: rest =>
      f <- is_file fs p ;;
      if f then Ok (codeowners_result (Some (str p)))
      else check_codeowners_loop fs rest
  end.

Definition check_codeowners (fs : repo) : result CheckResult :=
  check_codeowners_loop fs [[".github"; "CODEOWNERS"]; ["CODEOWNERS"]].

(** [check_ci]. *)
Definition ci_result := result_of "ci" "CI configurado" 15.

Definition workflows : path := [".github"; "workflows"].

Definition yaml_suffix (f : path) : bool :=
  PyStr.mem (PyStr.lower (suffix f)) [".yml"; ".yaml"].

Definition check_ci (fs : repo) : result CheckResult :=
  d <- is_dir fs workflows ;;
  hit <- (if d then
            it <- iterdir fs workflows ;;
            Ok (find yaml_suffix (map (fun n => workflows ++ [n]) it))
          else Ok None) ;;
  match hit with
  | Some f => Ok (ci_result (Some (str f)))
  | None =>
      g <- is_file fs [".gitlab-ci.yml"] ;;
      if g then Ok (ci_result (Some ".gitlab-ci.yml"))
      else Ok (ci_result None)
  end.

(** [check_tests]. *)
Definition tests_result := result_of "tests" "Tests presentes" 15.

Definition test_dir_names : list string :=
  ["test"; "tests"; "spec"; "specs"; "__tests__"].

(** The body of the first loop over [paths]: [rel.parts] is [p] itself. *)
Definition tests_first (p : path) : bool :=
  PyStr.mem "__tests__" p
  || (let name := PyStr.lower (stem p) in
      (PyStr.contains "test" name || PyStr.contains "spec" name)
      && existsb (fun x => PyStr.mem x p) test_dir_names).

(** The body of the second loop: [p.parts] includes the parts of the root. *)
Definition tests_second (fs : repo) (p : path) : bool :=
  PyStr.mem "__tests__" (parts fs p).

Definition check_tests (fs : repo) : result CheckResult :=
  paths <- walk_repo fs ;;
  d1 <- is_dir fs ["tests"] ;;
  d <- (if d1 then Ok true else is_dir fs ["test"]) ;;
  if d then Ok (tests_result (Some "tests/ o test/"))
  else
    match find tests_first paths with
    | Some p => Ok (tests_result (Some (str p)))
    | None =>
        match find (tests_second fs) paths with
        | Some p => Ok (tests_result (Some (str p)))
        | None => Ok (tests_result None)
        end
    end.

(** [check_linter]. *)
Definition linter_result := result_of "linter" "Linter config" 10.

Definition linter_words (content : string) : bool :=
  PyStr.contains "ruff" content || PyStr.contains "black" content
  || PyStr.contains "isort" content.

Fixpoint check_linter_loop (fs : repo) (it : list path)
  : result CheckResult :=
  match it with
  | [] => Ok (linter_result None)
  | p :: it' =>
      let rel := PyStr.replace_char "\" "/" (str p) in
      let name := PyStr.lower (basename p) in
      if String.eqb name ".editorconfig" then Ok (linter_result (Some rel))
      else if PyStr.startswith name ".eslintrc"
      then Ok (linter_result (Some rel))
      else if String.eqb name "ruff.toml" then Ok (linter_result (Some rel))
      else if String.eqb name "stylecop.json"
      then Ok (linter_result (Some rel))
      else if String.eqb name "pyproject.toml" then
        match read fs p with
        | Ok text =>
            if linter_words (PyStr.take (KiB 8) text)
            then Ok (linter_result (Some rel))
            else check_linter_loop fs it'
        | Raise _ => check_linter_loop fs it'
        end
      else check_linter_loop fs it'
  end.

Definition check_linter (fs : repo) : result CheckResult :=
  paths <- walk_repo fs ;; check_linter_loop fs paths.

(** [check_docker]. *)
Definition docker_result := result_of "docker" "Docker presente" 10.

Fixpoint check_docker_loop (fs : repo) (names : list string)
  : result CheckResult :=
  match names with
  | [] => Ok (docker_result None)
  | n :: rest =>
      f <- is_file fs [n] ;;
      if f then Ok (docker_result (Some n)) else check_docker_loop fs rest
  end.

Definition check_docker (fs : repo) : result CheckResult :=
  check_docker_loop fs
    ["Dockerfile"; "docker-compose.yml"; "docker-compose.yaml"].

(** [check_security]. *)
Definition security_result := result_of "security" "Security docs/config" 10.

Definition check_security (fs : repo) : result CheckResult :=
  s <- is_file fs ["SECURITY.md"] ;;
  if s then Ok (security_result (Some "SECURITY.md"))
  else
    d <- is_file fs [".github"; "dependabot.yml"] ;;
    if d then Ok (security_result (Some ".github/dependabot.yml"))
    else Ok (security_result None).

(** [check_observability]. *)
Definition observability_result :=
  result_of "observability" "OpenTelemetry en deps/config" 5.

Definition config_suffixes : list string :=
  [".json"; ".toml"; ".yml"; ".yaml"; ".txt"; ".xml"; ".gradle"; ".mod"].

Definition needle : string := "opentelemetry".

(** [needle in p.read_bytes()[:MAX_READ_BYTES].lower()]. *)
Definition mentions_needle (fs : repo) (p : path) : result bool :=
  content <- read fs p ;;
  Ok (PyStr.contains needle (PyStr.lower (PyStr.take MAX_READ_BYTES content))).

(** The body of the [try] for one path: [Some] is a [return]. *)
Definition observability_body (fs : repo) (p : path) : result (option string) :=
  first <- (if PyStr.mem (PyStr.lower (suffix p)) config_suffixes
            then mentions_needle fs p else Ok false) ;;
  if first then Ok (Some (str p))
  else
    second <- (if PyStr.mem "config" p || PyStr.mem "conf" p
                  || PyStr.mem "workflows" p
               then mentions_needle fs p else Ok false) ;;
    if second then Ok (Some (str p)) else Ok None.

Fixpoint check_observability_loop (fs : repo) (it : list path)
  : result CheckResult :=
  match it with
  | [] => Ok (observability_result None)
  | p :: it' =>
      match observability_body fs p with
      | Ok (Some ev) => Ok (observability_result (Some ev))
      | Ok None => check_observability_loop fs it'
      | Raise _ => check_observability_loop fs it'
      end
  end.

Definition check_observability (fs : repo) : result CheckResult :=
  paths <- walk_repo fs ;; check_observability_loop fs paths.

(** [check_release_hygiene]. *)
Definition release_result := result_of "release" "Release hygiene" 10.

(** ["(?:version|Version)"\s*:\s*["']?[\d.]+\d["']?] with [re.I]. *)
Definition version_pattern : Re.re :=
  Re.seq [Re.chr_i Re.dquote;
          Re.Alt (Re.lit_i "version") (Re.lit_i "Version");
          Re.chr_i Re.dquote;
          Re.Star Re.space; Re.chr_i ":"; Re.Star Re.space;
          Re.opt Re.quote;
          Re.plus Re.digit_or_dot; Re.digit;
          Re.opt Re.quote].

(** [<Version>[\d.]+</Version>] with [re.I]. *)
Definition version_csproj : Re.re :=
  Re.seq [Re.lit_i "<Version>"; Re.plus Re.digit_or_dot;
          Re.lit_i "</Version>"].

Fixpoint release_manifests (fs : repo) (names : list string)
  : result (option string) :=
  match names with
  | [] => Ok None
  | n :: rest =>
      f <- is_file fs [n] ;;
      if f then
        match read fs [n] with
        | Ok text =>
            if Re.search version_pattern (PyStr.take (KiB 4) text)
            then Ok (Some (String.append n " (version)"))
            else release_manifests fs rest
        | Raise _ => release_manifests fs rest
        end
      else release_manifests fs rest
  end.

Fixpoint release_csproj (fs : repo) (it : list path) : result CheckResult :=
  match it with
  | [] => Ok (release_result None)
  | p :: it' =>
      f <- (if String.eqb (PyStr.lower (suffix p)) ".csproj"
            then is_file fs p else Ok false) ;;
      if f then
        match read fs p with
        | Ok text =>
            if Re.search version_csproj (PyStr.take (KiB 4) text)
            then Ok (release_result (Some (str p)))
            else release_csproj fs it'
        | Raise _ => release_csproj fs it'
        end
      else release_csproj fs it'
  end.

Definition check_release_hygiene (fs : repo) : result CheckResult :=
  c <- is_file fs ["CHANGELOG.md"] ;;
  if c then Ok (release_result (Some "CHANGELOG.md"))
  else
    m <- release_manifests fs ["package.json"; "pyproject.toml"] ;;
    match m with
    | Some ev => Ok (release_result (Some ev))
    | None => paths <- walk_repo fs ;; release_csproj fs paths
    end.

(* ================================================================= *)
(** ** Registry and score *)

Definition runners : list (repo -> result CheckResult) :=
  [check_readme; check_license; check_codeowners; check_ci; check_tests;
   check_linter; check_docker; check_security; check_observability;
   check_release_hygiene].

(** [[fn(root) for fn in runners]]. *)
Fixpoint run_each (fs : repo) (fns : list (repo -> result CheckResult))
  : result (list CheckResult) :=
  match fns with
  | [] => Ok []
  | fn :: fns' =>
      c <- fn fs ;; cs <- run_each fs fns' ;; Ok (c :: cs)
  end.

Definition run_all_checks (fs : repo) : result (list CheckResult) :=
  run_each fs runners.

(** [sum(c.weight for c in checks if c.passed)]: the running total of
    [sum] over the generator. *)
Definition compute_score (checks : list CheckResult) : Z :=
  fold_left (fun total c => if passed c then (total + weight c)%Z else total)
            checks 0%Z.

(* ================================================================= *)
(** ** Report and renderers *)

(** The dictionary built by [build_report]. *)
Record Report : Type := mkReport {
  repoPath : string;
  score : Z;
  passed_count : Z;              (* key ["passed"] *)
  failed_count : Z;              (* key ["failed"] *)
  checks : list CheckResult;
  timestamp : string
}.

(** [str(root.resolve())] on POSIX. *)
Definition str_root (fs : repo) : string :=
  match root_parts fs with
  | "/" :: rest => String.append "/" (String.concat "/" rest)
  | ps => String.concat "/" ps
  end.

(** [build_report]; [now] is the reading of the clock, already formatted. *)
Definition build_report (fs : repo) (cs : list CheckResult) (sc : Z)
                        (now : string) : Report :=
  {| repoPath := str_root fs;
     score := sc;
     passed_count := Z.of_nat (List.length (filter passed cs));
     failed_count :=
       Z.of_nat (List.length (filter (fun c => negb (passed c)) cs));
     checks := cs;
     timestamp := now |}.

(** What the process writes: one event per [print]. *)
Inductive event : Type :=
| Out (line : string)            (* standard output *)
| Err (line : string).           (* [file=sys.stderr] *)

Module Json.

Local Open Scope string_scope.

Definition nl : string := String "010"%char "".
Definition q : string := String Re.dquote "".

Definition hex_digit (n : nat) : ascii :=
  if (n <? 10)%nat then ascii_of_nat (48 + n) else ascii_of_nat (87 + n).

(** The escapes of [json.dumps(..., ensure_ascii=False)]. *)
Definition escape_char (c : ascii) : string :=
  let n := nat_of_ascii c in
  if Ascii.eqb c Re.dquote then String.append "\" q
  else if Ascii.eqb c "\" then "\\"
  else if (n =? 10)%nat then "\n"
  else if (n =? 13)%nat then "\r"
  else if (n =? 9)%nat then "\t"
  else if (n =? 8)%nat then "\b"
  else if (n =? 12)%nat then "\f"
  else if (n <? 32)%nat
  then String.append "\u00"
         (String (hex_digit (n / 16)) (String (hex_digit (n mod 16)) ""))
  else String c "".

Fixpoint escape (s : string) : string :=
  match s with
  | EmptyString => EmptyString
  | String c s' => String.append (escape_char c) (escape s')
  end.

Definition jstr (s : string) : string := q ++ escape s ++ q.
Definition jbool (b : bool) : string := if b then "true" else "false".
Definition key (k : string) : string := q ++ k ++ q ++ ": ".

(** One element of ["checks"], at nesting depth two. *)
Definition check (c : CheckResult) : string :=
  "{" ++ nl
  ++ "      " ++ key "id" ++ jstr (id c) ++ "," ++ nl
  ++ "      " ++ key "name" ++ jstr (name c) ++ "," ++ nl
  ++ "      " ++ key "weight" ++ PyStr.str_int (weight c) ++ "," ++ nl
  ++ "      " ++ key "passed" ++ jbool (passed c) ++ "," ++ nl
  ++ "      " ++ key "evidence" ++ jstr (evidence c) ++ nl
  ++ "    }".

Definition check_list (cs : list CheckResult) : string :=
  match cs with
  | [] => "[]"
  | _ =>
      "[" ++ nl
      ++ String.concat ("," ++ nl) (map (fun c => "    " ++ check c) cs)
      ++ nl ++ "  ]"
  end.

(** [json.dumps(report, indent=2, ensure_ascii=False)]. *)
Definition dumps (r : Report) : string :=
  "{" ++ nl
  ++ "  " ++ key "repoPath" ++ jstr (repoPath r) ++ "," ++ nl
  ++ "  " ++ key "score" ++ PyStr.str_int (score r) ++ "," ++ nl
  ++ "  " ++ key "passed" ++ PyStr.str_int (passed_count r) ++ "," ++ nl
  ++ "  " ++ key "failed" ++ PyStr.str_int (failed_count r) ++ "," ++ nl
  ++ "  " ++ key "checks" ++ check_list (checks r) ++ "," ++ nl
  ++ "  " ++ key "timestamp" ++ jstr (timestamp r) ++ nl
  ++ "}".

End Json.

(** [output_json]. *)
Definition output_json (r : Report) : list event := [Out (Json.dumps r)].

Module Fmt.

Local Open Scope string_scope.

Fixpoint repeat_char (c : ascii) (n : nat) : string :=
  match n with
  | O => EmptyString
  | S n' => String c (repeat_char c n')
  end.

(** [{:<w}]. *)
Definition left (w : nat) (s : string) : string :=
  s ++ repeat_char " " (w - String.length s).

(** [{:^w}]: the odd space goes to the right. *)
Definition center (w : nat) (s : string) : string :=
  let pad := w - String.length s in
  repeat_char " " (pad / 2) ++ s ++ repeat_char " " (pad - pad / 2).

(** ["| {:<10} | {:<26} | {:^6} | {:^4} | {:<42} |".format(...)]. *)
Definition row (a b c d e : string) : string :=
  "| " ++ left 10 a ++ " | " ++ left 26 b ++ " | " ++ center 6 c
  ++ " | " ++ center 4 d ++ " | " ++ left 42 e ++ " |".

End Fmt.

Definition table_sep : string :=
  ("+" ++ Fmt.repeat_char "-" 12 ++ "+" ++ Fmt.repeat_char "-" 28 ++ "+"
   ++ Fmt.repeat_char "-" 8 ++ "+" ++ Fmt.repeat_char "-" 6 ++ "+"
   ++ Fmt.repeat_char "-" 44 ++ "+")%string.

Definition table_head : string :=
  Fmt.row "ID" "Name" "Weight" "OK" "Evidence".

Definition table_row (c : CheckResult) : string :=
  let ev := PyStr.take 42
              (if String.eqb (evidence c) "" then "-" else evidence c) in
  let ok := if passed c then "yes" else "no" in
  Fmt.row (PyStr.take 10 (id c)) (PyStr.take 26 (name c))
          (PyStr.str_int (weight c)) ok ev.

(** [output_text]. *)
Definition output_text (r : Report) : list event :=
  [Out ("repo_scorecard — " ++ repoPath r)%string;
   Out ("Score: " ++ PyStr.str_int (score r) ++ "/100  Passed: "
        ++ PyStr.str_int (passed_count r) ++ "  Failed: "
        ++ PyStr.str_int (failed_count r) ++ "  (" ++ timestamp r
        ++ ")")%string;
   Out table_sep; Out table_head; Out table_sep]
  ++ map (fun c => Out (table_row c)) (checks r)
  ++ [Out table_sep].

(* ================================================================= *)
(** ** Entry point *)

Inductive out_format : Type := json | text.

(** The parsed command line. *)
Record args : Type := mkArgs {
  out : out_format;
  min_score : option Z
}.

(** What [args.path.resolve()] designates. *)
Inductive target : Type :=
| Absent                         (* [not root.exists()] *)
| NotDirectory                   (* [not root.is_dir()] *)
| Directory (fs : repo).

(** [f"Score {score} por debajo del mínimo {args.min_score}."]. *)
Definition gate_message (sc n : Z) : string :=
  ("Score " ++ PyStr.str_int sc ++ " por debajo del mínimo "
   ++ PyStr.str_int n ++ ".")%string.

(** [main]: the events written, and the value returned or the exception
    that escapes. *)
Definition main (a : args) (t : target) (now : string)
  : list event * result Z :=
  match t with
  | Absent => ([Err "Error: la ruta no existe."], Ok 1%Z)
  | NotDirectory => ([Err "Error: la ruta no es un directorio."], Ok 1%Z)
  | Directory fs =>
      match iterdir fs [] with
      | Raise PermissionError =>
          ([Err "Error: sin permiso de lectura en el directorio."], Ok 1%Z)
      | Raise e => ([], Raise e)
      | Ok _ =>
          match run_all_checks fs with
          | Raise e => ([], Raise e)
          | Ok cs =>
              let sc := compute_score cs in
              let report := build_report fs cs sc now in
              let printed :=
                match out a with
                | text => output_text report
                | json => output_json report
                end in
              match min_score a with
              | Some n =>
                  if (sc <? n)%Z then
                    (printed
                     ++ [Err (gate_message sc n)],
                     Ok 1%Z)
                  else (printed, Ok 0%Z)
              | None => (printed, Ok 0%Z)
              end
          end
      end
  end.

(* ================================================================= *)
(** ** Notions the statements use *)

(** The sum of the weights of a list of results. *)
Definition weight_total (cs : list CheckResult) : Z :=
  fold_right (fun c s => (weight c + s)%Z) 0%Z cs.

(** The weights of the registry, in registry order. *)
Definition registry_weights : list Z :=
  [10; 5; 10; 15; 15; 10; 10; 10; 5; 10]%Z.

(** Every directory of the tree can be listed and searched. *)
Fixpoint accessible (n : node) : bool :=
  match n with
  | File _ => true
  | Dir r x es =>
      r && x &&
      (fix all (l : list (string * node)) : bool :=
         match l with
         | [] => true
         | (_, m) :: l' => accessible m && all l'
         end) es
  end.

(** Adding one regular file: [p] names a place that does not exist yet, in
    a directory that does. *)
Fixpoint add_file (n : node) (p : path) (content : option string)
  : option node :=
  match n, p with
  | Dir r x es, [c] =>
      match find_entry c es with
      | None => Some (Dir r x (es ++ [(c, File content)]))
      | Some _ => None
      end
  | Dir r x es, c :: p' =>
      option_map (Dir r x)
      ((fix go (l : list (string * node)) : option (list (string * node)) :=
         match l with
         | [] => None
         | (c', m) :: l' =>
             if String.eqb c' c then
               match add_file m p' content with
               | Some m' => Some ((c', m') :: l')
               | None => None
               end
             else
               match go l' with
               | Some l'' => Some ((c', m) :: l'')
               | None => None
               end
         end) es)
  | _, _ => None
  end.

(** The repository after the file is added. *)
Definition add_file_repo (fs : repo) (p : path) (content : option string)
  : option repo :=
  match add_file (root_node fs) p content with
  | Some n => with_root fs n
  | None => None
  end.

(** [shaped mk c]: [c] is the record of the check whose results [mk]
    builds, so it carries the constants of that check, and evidence exactly
    when it passed. *)
Definition shaped (mk : option string -> CheckResult) (c : CheckResult)
  : Prop :=
  exists ev, c = mk ev.

(** What [main] prints for a report. *)
Definition rendered (a : args) (r : Report) : list event :=
  match out a with
  | text => output_text r
  | json => output_json r
  end.

(** The score of a run that returns. *)
Definition score_of (fs : repo) : option Z :=
  match run_all_checks fs with
  | Ok cs => Some (compute_score cs)
  | Raise _ => None
  end.

(** An event on the output stream. *)
Definition is_out (e : event) : Prop := exists l, e = Out l.

(** The starting directories below the entries of a directory. *)
Definition children_dirs (ok : bool) (prefix : path)
                         (es : list (string * node))
  : list (path * list string) :=
  flat_map (fun e => iterate_directories ok (prefix ++ [fst e]) (snd e)) es.

(** A listed file that makes the tests check pass: [__tests__] is one of
    its components below the root (or of the components of the root), or
    its stem contains [test] or [spec] and one of the five directory names
    is among its components below the root, its own name included. *)
Definition counts_as_test (fs : repo) (p : path) : Prop :=
  In "__tests__" p
  \/ ((PyStr.contains "test" (PyStr.lower (stem p)) = true
       \/ PyStr.contains "spec" (PyStr.lower (stem p)) = true)
      /\ exists x, In x test_dir_names /\ In x p)
  \/ In "__tests__" (root_parts fs ++ p).

(* ================================================================= *)
(** ** Sample repositories *)

Module Samples.

Definition file (s : string) : node := File (Some s).
Definition dir (es : list (string * node)) : node := Dir true true es.

(** A readable repository checked out at [/srv/repo]. *)
Definition at_srv (es : list (string * node)) : repo :=
  mkRepo ["/"; "srv"; "repo"] true true es.

Definition empty : repo := at_srv [].

Definition readme_only : repo := at_srv [("README.md", file "")].

(** [README.md], [LICENSE], [.github/workflows/ci.yml], [tests/test_x]. *)
Definition four_files : repo :=
  at_srv [("README.md", file "# project");
          ("LICENSE", file "MIT");
          (".github", dir [("workflows", dir [("ci.yml", file "on: push")])]);
          ("tests", dir [("test_x", file "")])].

(** A [pyproject.toml] with a version field, and nothing else. *)
Definition pyproject_text : string :=
  ("[project]" ++ Json.nl ++ "name = " ++ Json.q ++ "demo" ++ Json.q
   ++ Json.nl ++ "version = " ++ Json.q ++ "1.2.3" ++ Json.q
   ++ Json.nl)%string.

Definition pyproject_only : repo :=
  at_srv [("pyproject.toml", file pyproject_text)].

(** The same version in a [package.json]. *)
Definition package_text : string :=
  ("{" ++ Json.q ++ "version" ++ Json.q ++ ": " ++ Json.q ++ "1.2.3"
   ++ Json.q ++ "}")%string.

Definition package_only : repo :=
  at_srv [("package.json", file package_text)].

(** [locked] has mode r--: it can be listed, not searched. *)
Definition locked_dir : repo :=
  at_srv [("a.txt", file "");
          ("locked", Dir true false [("s.txt", file "")]);
          ("z", dir [("b.txt", file "")])].

(** The same tree with [locked] made searchable. *)
Definition unlocked_dir : repo :=
  at_srv [("a.txt", file "");
          ("locked", dir [("s.txt", file "")]);
          ("z", dir [("b.txt", file "")])].

(** [src/__tests__] exists and is empty. *)
Definition empty_tests_dir : repo :=
  at_srv [("src", dir [("__tests__", dir [])])].

(** One regular file named [spec] at the top, and no directory. *)
Definition spec_file : repo := at_srv [("spec", file "")].

(** [src/__tests__/a.js]. *)
Definition nested_tests : repo :=
  at_srv [("src", dir [("__tests__", dir [("a.js", file "")])])].

(** [.github/workflows] has mode --x: it cannot be listed. *)
Definition unlistable_workflows : repo :=
  at_srv [("README.md", file "");
          (".github",
           dir [("workflows", Dir false true [("ci.yml", file "")])])].

(** Two bare README files. *)
Definition bare_readmes : repo :=
  at_srv [("README", file "hello"); ("readme.", file "")].

(** [.github/workflows] holds one directory named [ci.yml]. *)
Definition workflow_subdir : repo :=
  at_srv [(".github", dir [("workflows", dir [("ci.yml", dir [])])])].

Definition noon : string := "2026-01-01T12:00:00Z".

End Samples.

(* ================================================================= *)
(** ** [app_prueba]: the sample library *)

Module Calc.

(** [add]: Python integers do not overflow. *)
Definition add (a b : Z) : Z := (a + b)%Z.

(** [greet]: [f"Hello, {name}!"]. *)
Definition greet (name : string) : string :=
  ("Hello, " ++ name ++ "!")%string.

End Calc.

Module Store.

(** [self._data]: a dictionary keeps its keys in insertion order, so it is
    the list of its items in that order. *)
Definition t : Type := list (string * string).

(** [Store()]. *)
Definition init : t := [].

(** [self._data[key] = value]: an existing key keeps its place and takes
    the new value, a new key goes to the end. *)
Fixpoint set (s : t) (key value : string) : t :=
  match s with
  | [] => [(key, value)]
  | (k, v) :: s' =>
      if String.eqb k key then (k, value) :: s'
      else (k, v) :: set s' key value
  end.

(** [self._data.get(key)]. *)
Fixpoint get (s : t) (key : string) : option string :=
  match s with
  | [] => None
  | (k, v) :: s' => if String.eqb k key then Some v else get s' key
  end.

(** [list(self._data.keys())]. *)
Definition keys (s : t) : list string := map fst s.

(** The store after a sequence of [set] calls on a fresh one. *)
Definition after (ops : list (string * string)) : t :=
  fold_left (fun s kv => set s (fst kv) (snd kv)) ops init.

End Store.

(* ================================================================= *)
(** ** Further notions the statements use *)

(** The strings a regular expression denotes. *)
Inductive lang : Re.re -> string -> Prop :=
| lang_Eps : lang Re.Eps ""
| lang_Cls f c : f c = true -> lang (Re.Cls f) (String c "")
| lang_Cat a b s t :
    lang a s -> lang b t -> lang (Re.Cat a b) (s ++ t)%string
| lang_AltL a b s : lang a s -> lang (Re.Alt a b) s
| lang_AltR a b s : lang b s -> lang (Re.Alt a b) s
| lang_StarNil a : lang (Re.Star a) ""
| lang_StarCons a s t :
    lang a s -> lang (Re.Star a) t -> lang (Re.Star a) (s ++ t)%string.

(** Every character of [s] satisfies [f]. *)
Fixpoint all_chars (f : ascii -> bool) (s : string) : bool :=
  match s with
  | EmptyString => true
  | String c s' => f c && all_chars f s'
  end.

(** The identifiers of the registry, in registry order. *)
Definition registry_ids : list string :=
  ["readme"; "license"; "codeowners"; "ci"; "tests"; "linter"; "docker";
   "security"; "observability"; "release"].

(** The lines of the table: what [output_text] prints after its two
    heading lines. *)
Definition table_lines (r : Report) : list event :=
  skipn 2 (output_text r).

(** The entry [n] of the root is a regular file. *)
Definition regular_at (fs : repo) (n : string) : bool :=
  match find_entry n (root_entries fs) with
  | Some (File _) => true
  | _ => false
  end.

(** [p] is known to be a regular file. *)
Definition is_regular (fs : repo) (p : path) : bool :=
  match is_file fs p with
  | Ok true => true
  | _ => false
  end.

(** Both CODEOWNERS places, two compose files, and a dependabot file. *)
Definition both_codeowners : repo :=
  Samples.at_srv
    [("CODEOWNERS", Samples.file "* @a");
     (".github", Samples.dir [("CODEOWNERS", Samples.file "* @b");
                              ("dependabot.yml", Samples.file "")]);
     ("docker-compose.yaml", Samples.file "");
     ("docker-compose.yml", Samples.file "")].

(** A listed file that the linter check accepts: a configuration file by
    its lower-cased name, or a [pyproject.toml] that can be read and whose
    first 8192 characters name one of the tools. *)
Definition linter_hit (fs : repo) (p : path) : Prop :=
  let name := PyStr.lower (basename p) in
  name = ".editorconfig"
  \/ PyStr.startswith name ".eslintrc" = true
  \/ name = "ruff.toml"
  \/ name = "stylecop.json"
  \/ (name = "pyproject.toml"
      /\ exists text, read fs p = Ok text
                      /\ linter_words (PyStr.take (KiB 8) text) = true).

(** An ESLint configuration in mixed case, one level down. *)
Definition nested_eslintrc : repo :=
  Samples.at_srv
    [("web", Samples.dir [(".ESLintrc.JSON", Samples.file "{}")])].

(** A listed file in which the observability check finds the needle: it
    has one of the configuration suffixes or lies under [config], [conf] or
    [workflows] (its own name counts), it can be read, and the lower-cased
    first 65536 bytes contain [opentelemetry]. *)
Definition observability_hit (fs : repo) (p : path) : Prop :=
  (In (PyStr.lower (suffix p)) config_suffixes
   \/ In "config" p \/ In "conf" p \/ In "workflows" p)
  /\ exists content,
       read fs p = Ok content
       /\ PyStr.contains needle
            (PyStr.lower (PyStr.take MAX_READ_BYTES content)) = true.

(** A file without suffix under [conf] that names OpenTelemetry. *)
Definition otel_in_conf : repo :=
  Samples.at_srv
    [("conf", Samples.dir [("collector", Samples.file "OpenTelemetry")])].

(** No entry of the tree has the empty name. *)
Fixpoint well_named (n : node) : bool :=
  match n with
  | File _ => true
  | Dir _ _ es =>
      (fix all (l : list (string * node)) : bool :=
         match l with
         | [] => true
         | (c, m) :: l' =>
             negb (String.eqb c "") && well_named m && all l'
         end) es
  end.

(** Induction on trees, with the hypothesis for every entry of a
    directory. *)
Section NodeInduction.

Variable P : node -> Prop.
Hypothesis P_File : forall content, P (File content).
Hypothesis P_Dir : forall r x es,
  Forall (fun e => P (snd e)) es -> P (Dir r x es).

Fixpoint node_induction (n : node) : P n :=
  match n with
  | File content => P_File content
  | Dir r x es =>
      P_Dir r x es
        ((fix go (l : list (string * node))
            : Forall (fun e => P (snd e)) l :=
            match l with
            | [] => Forall_nil _
            | (c, m) :: l' =>
                Forall_cons (c, m) (node_induction m) (go l')
            end) es)
  end.

End NodeInduction.

(* ================================================================= *)
(** ** The inputs the statements are about

    The tree has no symbolic links.  Where a statement needs more, it
    says so with one of the conditions below: they name the inputs on
    which the functions above agree with CPython beyond doubt. *)

Definition is_ascii (c : ascii) : bool := (nat_of_ascii c <? 128)%nat.

(** A printable ASCII character: no control character, so no line feed. *)
Definition is_printable (c : ascii) : bool :=
  (32 <=? nat_of_ascii c)%nat && (nat_of_ascii c <? 127)%nat.

(** An ASCII character other than the carriage return. *)
Definition is_plain (c : ascii) : bool :=
  is_ascii c && negb (nat_of_ascii c =? 13)%nat.

(** ASCII text: [str.upper], [str.lower], [re.I], [\d] and [\s] act on it
    as the functions above do, and a character is a byte. *)
Definition ascii_text (s : string) : bool := all_chars is_ascii s.

(** Printable ASCII text: printed, it is one line. *)
Definition printable_text (s : string) : bool := all_chars is_printable s.

(** ASCII text without carriage return: [read_text] returns the bytes of
    such a file as they are, with nothing to decode, to drop or to
    translate. *)
Definition plain_text (s : string) : bool := all_chars is_plain s.

(** Every entry of the tree has an ASCII name. *)
Fixpoint ascii_names (n : node) : bool :=
  match n with
  | File _ => true
  | Dir _ _ es =>
      (fix all (l : list (string * node)) : bool :=
         match l with
         | [] => true
         | (c, m) :: l' => ascii_text c && ascii_names m && all l'
         end) es
  end.

(** Every file of the tree that can be read holds plain text. *)
Fixpoint plain_contents (n : node) : bool :=
  match n with
  | File None => true
  | File (Some s) => plain_text s
  | Dir _ _ es =>
      (fix all (l : list (string * node)) : bool :=
         match l with
         | [] => true
         | (_, m) :: l' => plain_contents m && all l'
         end) es
  end.

(** The number of directories on the longest chain, the root included. *)
Fixpoint node_depth (n : node) : nat :=
  match n with
  | File _ => 0
  | Dir _ _ es =>
      S ((fix deepest (l : list (string * node)) : nat :=
            match l with
            | [] => 0
            | (_, m) :: l' => Nat.max (node_depth m) (deepest l')
            end) es)
  end.

(** The length of the longest path of the tree, [len] being the length of
    the path of [n] itself. *)
Fixpoint longest_path (len : nat) (n : node) : nat :=
  match n with
  | File _ => len
  | Dir _ _ es =>
      (fix longest (l : list (string * node)) : nat :=
         match l with
         | [] => len
         | (c, m) :: l' =>
             Nat.max (longest_path (len + 1 + String.length c) m)
                     (longest l')
         end) es
  end.

(** The size in bytes of the largest file that can be read. *)
Fixpoint largest_file (n : node) : nat :=
  match n with
  | File None => 0
  | File (Some s) => String.length s
  | Dir _ _ es =>
      (fix largest (l : list (string * node)) : nat :=
         match l with
         | [] => 0
         | (_, m) :: l' => Nat.max (largest_file m) (largest l')
         end) es
  end.

(** A depth well inside CPython's default recursion limit of 1000: the
    generators of [rglob] nest once per directory level. *)
Definition SAFE_DEPTH : nat := 400.

(** [PATH_MAX] on Linux. *)
Definition PATH_MAX : nat := KiB 4.

(** A file size that [read_text] and [read_bytes] hold in memory. *)
Definition SAFE_SIZE : nat := KiB 1024.

(** The tree is within the limits inside which walking and reading it
    raise nothing but [OSError]s for missing permissions: it is at most
    [SAFE_DEPTH] directories deep, no path reaches [PATH_MAX], and no file
    is larger than [SAFE_SIZE]. *)
Definition within_limits (fs : repo) : bool :=
  (node_depth (root_node fs) <=? SAFE_DEPTH)%nat
  && (longest_path (String.length (str_root fs)) (root_node fs)
      <? PATH_MAX)%nat
  && (largest_file (root_node fs) <=? SAFE_SIZE)%nat.


(** A top-level [tests] directory with nothing in it. *)
Definition empty_top_tests : repo := Samples.at_srv [("tests", Samples.dir [])].

(** A repository checked out below a directory named [build]. *)
Definition under_build : repo :=
  mkRepo ["/"; "home"; "dev"; "build"; "repo"] true true
    [("README.md", File (Some ""))].

(* ================================================================= *)
(** * Properties *)

(** ** The error monad *)

Lemma bind_ok {A B : Type} (m : result A) (k : A -> result B) (b : B) :
  bind m k = Ok b -> exists a, m = Ok a /\ k a = Ok b.
Proof.
  destruct m as [a|e]; simpl; intros H; [exists a; auto | discriminate].
Qed.

Ltac bind_inv H :=
  let a := fresh "a" in
  let Ha := fresh "Ha" in
  apply bind_ok in H; destruct H as (a & Ha & H).

(** ** Every check returns its own record *)

Lemma Ok_inj {A : Type} (a b : A) : Ok a = Ok b -> a = b.
Proof. intros H; injection H; auto. Qed.

Ltac ok_inv :=
  match goal with
  | H : Ok _ = Ok ?c |- shaped _ ?c =>
      apply Ok_inj in H; rewrite <- H;
      first [ exists None; reflexivity | eexists (Some _); reflexivity ]
  end.

Lemma check_readme_shape fs c :
  check_readme fs = Ok c -> shaped readme_result c.
Proof.
  unfold check_readme. intros H. bind_inv H. clear Ha.
  induction a as [|n it IH]; cbn [check_readme_loop] in H.
  - ok_inv.
  - bind_inv H. destruct a; cbn [negb] in H; auto.
    destruct (readme_name n); auto. ok_inv.
Qed.

Lemma check_license_shape fs c :
  check_license fs = Ok c -> shaped license_result c.
Proof.
  unfold check_license. intros H. bind_inv H. clear Ha.
  induction a as [|n it IH]; cbn [check_license_loop] in H.
  - ok_inv.
  - bind_inv H.
    destruct (a && PyStr.startswith (PyStr.upper n) "LICENSE"); auto. ok_inv.
Qed.

Lemma check_codeowners_loop_shape fs l c :
  check_codeowners_loop fs l = Ok c -> shaped codeowners_result c.
Proof.
  induction l as [|p l IH]; cbn [check_codeowners_loop]; intros H.
  - ok_inv.
  - bind_inv H. destruct a; auto. ok_inv.
Qed.

Lemma check_ci_shape fs c : check_ci fs = Ok c -> shaped ci_result c.
Proof.
  unfold check_ci. intros H. bind_inv H. bind_inv H.
  destruct a0.
  - ok_inv.
  - bind_inv H. destruct a0; ok_inv.
Qed.

Lemma check_tests_shape fs c : check_tests fs = Ok c -> shaped tests_result c.
Proof.
  unfold check_tests. intros H. do 3 bind_inv H.
  destruct a1; [ok_inv|].
  destruct (find tests_first a); [ok_inv|].
  destruct (find (tests_second fs) a); ok_inv.
Qed.

Lemma check_linter_loop_shape fs l c :
  check_linter_loop fs l = Ok c -> shaped linter_result c.
Proof.
  induction l as [|p l IH]; cbn [check_linter_loop]; intros H.
  - ok_inv.
  - repeat match type of H with
           | (if ?b then _ else _) = _ => destruct b; [ok_inv|]
           end.
    destruct (String.eqb _ _); auto.
    destruct (read fs p); auto.
    destruct (linter_words _); auto. ok_inv.
Qed.

Lemma check_docker_loop_shape fs l c :
  check_docker_loop fs l = Ok c -> shaped docker_result c.
Proof.
  induction l as [|p l IH]; cbn [check_docker_loop]; intros H.
  - ok_inv.
  - bind_inv H. destruct a; auto. ok_inv.
Qed.

Lemma check_security_shape fs c :
  check_security fs = Ok c -> shaped security_result c.
Proof.
  unfold check_security. intros H. bind_inv H.
  destruct a; [ok_inv|]. bind_inv H. destruct a; ok_inv.
Qed.

Lemma check_observability_loop_shape fs l c :
  check_observability_loop fs l = Ok c -> shaped observability_result c.
Proof.
  induction l as [|p l IH]; cbn [check_observability_loop]; intros H.
  - ok_inv.
  - destruct (observability_body fs p) as [[ev|]|e]; auto. ok_inv.
Qed.

Lemma release_csproj_shape fs l c :
  release_csproj fs l = Ok c -> shaped release_result c.
Proof.
  induction l as [|p l IH]; cbn [release_csproj]; intros H.
  - ok_inv.
  - bind_inv H. destruct a; auto.
    destruct (read fs p); auto.
    destruct (Re.search _ _); auto. ok_inv.
Qed.

Lemma check_release_hygiene_shape fs c :
  check_release_hygiene fs = Ok c -> shaped release_result c.
Proof.
  unfold check_release_hygiene. intros H. bind_inv H.
  destruct a; [ok_inv|]. bind_inv H.
  destruct a; [ok_inv|]. bind_inv H.
  eapply release_csproj_shape; eauto.
Qed.

(** ** Weights of the registry *)

Lemma shaped_weight i n w c : shaped (result_of i n w) c -> weight c = w.
Proof. intros [[e|] ->]; reflexivity. Qed.

Lemma shaped_evidence i n w c :
  shaped (result_of i n w) c -> passed c = false -> evidence c = "".
Proof. intros [[e|] ->]; simpl; [discriminate | reflexivity]. Qed.

Lemma run_each_Forall2 fs fns : forall cs,
  run_each fs fns = Ok cs -> Forall2 (fun fn c => fn fs = Ok c) fns cs.
Proof.
  induction fns as [|fn fns IH]; cbn [run_each]; intros cs H.
  - apply Ok_inj in H. subst. constructor.
  - bind_inv H. bind_inv H. apply Ok_inj in H. subst.
    constructor; auto.
Qed.

Lemma check_linter_shape fs c :
  check_linter fs = Ok c -> shaped linter_result c.
Proof.
  unfold check_linter. intros H. bind_inv H.
  eapply check_linter_loop_shape; eauto.
Qed.

Lemma check_observability_shape fs c :
  check_observability fs = Ok c -> shaped observability_result c.
Proof.
  unfold check_observability. intros H. bind_inv H.
  eapply check_observability_loop_shape; eauto.
Qed.

(** The results of a run, one per check of the registry. *)
Lemma run_all_checks_shape fs cs :
  run_all_checks fs = Ok cs ->
  Forall2 shaped
    [readme_result; license_result; codeowners_result; ci_result;
     tests_result; linter_result; docker_result; security_result;
     observability_result; release_result] cs.
Proof.
  intros H. apply run_each_Forall2 in H. unfold runners in H.
  repeat match goal with
         | H : Forall2 _ (_ :: _) _ |- _ => inversion H; subst; clear H
         | H : Forall2 _ [] _ |- _ => inversion H; subst; clear H
         end.
  repeat constructor;
    eauto using check_readme_shape, check_license_shape,
      check_codeowners_loop_shape, check_ci_shape, check_tests_shape,
      check_linter_shape, check_docker_loop_shape, check_security_shape,
      check_observability_shape, check_release_hygiene_shape.
Qed.

Lemma run_all_checks_weights fs cs :
  run_all_checks fs = Ok cs -> map weight cs = registry_weights.
Proof.
  intros H. apply run_all_checks_shape in H.
  repeat match goal with
         | H : Forall2 _ (_ :: _) _ |- _ => inversion H; subst; clear H
         | H : Forall2 _ [] _ |- _ => inversion H; subst; clear H
         | H : shaped _ _ |- _ => apply shaped_weight in H
         end.
  cbn [map]. unfold registry_weights. congruence.
Qed.

(** ** The score *)

Lemma compute_score_from (cs : list CheckResult) : forall z,
  fold_left (fun total c => if passed c then (total + weight c)%Z else total)
            cs z
  = (z + weight_total (filter passed cs))%Z.
Proof.
  induction cs as [|c cs IH]; intros z; simpl.
  - lia.
  - rewrite IH. destruct (passed c); simpl; lia.
Qed.

Lemma compute_score_filter cs :
  compute_score cs = weight_total (filter passed cs).
Proof. unfold compute_score. rewrite compute_score_from. lia. Qed.

Lemma weight_total_map cs :
  weight_total cs = fold_right Z.add 0%Z (map weight cs).
Proof. induction cs; simpl; congruence. Qed.

Lemma passed_total_bounds cs :
  Forall (fun w => 0 <= w)%Z (map weight cs) ->
  (0 <= weight_total (filter passed cs) <= weight_total cs)%Z.
Proof.
  induction cs as [|c cs IH]; simpl; intros H.
  - lia.
  - inversion H; subst. specialize (IH H3).
    destruct (passed c); simpl; lia.
Qed.

Lemma registry_weights_nonneg : Forall (fun w => 0 <= w)%Z registry_weights.
Proof. unfold registry_weights. repeat constructor; lia. Qed.

(** ** The scenarios of the specification *)

Example empty_directory_scores_0 :
  score_of Samples.empty = Some 0%Z
  /\ snd (main (mkArgs json None) (Directory Samples.empty) Samples.noon)
     = Ok 0%Z.
Proof. split; vm_compute; reflexivity. Qed.

Example readme_only_scores_10 :
  score_of Samples.readme_only = Some 10%Z
  /\ check_readme Samples.readme_only
     = Ok (readme_result (Some "README.md")).
Proof. split; vm_compute; reflexivity. Qed.

Example four_files_score_45 : score_of Samples.four_files = Some 45%Z.
Proof. vm_compute; reflexivity. Qed.

Example pyproject_with_ruff_passes_linter :
  check_linter
    (Samples.at_srv [("pyproject.toml", Samples.file "[tool.ruff]")])
  = Ok (linter_result (Some "pyproject.toml")).
Proof. vm_compute; reflexivity. Qed.

(** ** Claims on the score and the registry *)

(** C1. For every repository root on which [run_all_checks] returns its
    list, [compute_score] of that list is the sum of the weights of exactly
    the results whose [passed] is true, and lies between 0 and 100. *)
Theorem score_is_weight_of_passed (fs : repo) (cs : list CheckResult) :
  run_all_checks fs = Ok cs ->
  compute_score cs = weight_total (filter passed cs)
  /\ (0 <= compute_score cs <= 100)%Z.
Proof.
  intros H. split; [apply compute_score_filter|].
  rewrite compute_score_filter.
  pose proof (run_all_checks_weights _ _ H) as Hw.
  assert (Ht : weight_total cs = 100%Z)
    by (rewrite weight_total_map, Hw; reflexivity).
  pose proof (passed_total_bounds cs) as Hb.
  rewrite Hw in Hb. specialize (Hb registry_weights_nonneg). lia.
Qed.

Lemma score_is_weight_of_passed_witness :
  exists cs,
    run_all_checks Samples.four_files = Ok cs
    /\ compute_score cs = 45%Z
    /\ compute_score cs = weight_total (filter passed cs)
    /\ (0 <= compute_score cs <= 100)%Z.
Proof.
  eexists. split; [vm_compute; reflexivity|].
  split; [vm_compute; reflexivity|].
  apply (score_is_weight_of_passed Samples.four_files).
  vm_compute; reflexivity.
Defined.

(** C2. The weights of the ten results returned by [run_all_checks] are the
    constants of the registry, whatever the repository holds, and their sum
    is exactly 100. *)
Theorem registry_weights_sum_to_100 (fs : repo) (cs : list CheckResult) :
  run_all_checks fs = Ok cs ->
  List.length cs = 10%nat
  /\ map weight cs = registry_weights
  /\ weight_total cs = 100%Z.
Proof.
  intros H. pose proof (run_all_checks_weights _ _ H) as Hw.
  repeat split; auto.
  - rewrite <- (length_map weight), Hw. reflexivity.
  - rewrite weight_total_map, Hw. reflexivity.
Qed.

Lemma registry_weights_sum_to_100_witness :
  exists cs,
    run_all_checks Samples.empty = Ok cs
    /\ List.length cs = 10%nat
    /\ map weight cs = registry_weights
    /\ weight_total cs = 100%Z.
Proof.
  eexists. split; [vm_compute; reflexivity|].
  apply (registry_weights_sum_to_100 Samples.empty).
  vm_compute; reflexivity.
Defined.

(** ** Monotonicity *)

Lemma passed_total_mono : forall cs cs',
  map weight cs = map weight cs' ->
  Forall (fun w => 0 <= w)%Z (map weight cs) ->
  (forall j c, nth_error cs j = Some c -> passed c = true ->
               exists c', nth_error cs' j = Some c' /\ passed c' = true) ->
  (weight_total (filter passed cs) <= weight_total (filter passed cs'))%Z.
Proof.
  induction cs as [|c cs IH]; intros [|c' cs'] Hw Hpos Hp;
    simpl in Hw; try discriminate Hw.
  - simpl; lia.
  - injection Hw as Hw1 Hw2. inversion Hpos; subst.
    assert (IH' : (weight_total (filter passed cs)
                   <= weight_total (filter passed cs'))%Z).
    { apply IH; auto. intros j d Hj Hd. apply (Hp (S j) d); auto. }
    simpl. destruct (passed c) eqn:Pc.
    + destruct (Hp 0%nat c eq_refl Pc) as (d & Hd & Pd).
      simpl in Hd. injection Hd as <-. rewrite Pd. simpl. lia.
    + destruct (passed c'); simpl; lia.
Qed.

(** C7. Adding one file that turns a failing check into a passing one, the
    outcome of every other check being the same, never lowers the score. *)
Theorem score_monotone_under_added_file
    (fs fs' : repo) (p : path) (content : option string)
    (cs cs' : list CheckResult) (i : nat) (c c' : CheckResult) :
  add_file_repo fs p content = Some fs' ->
  run_all_checks fs = Ok cs ->
  run_all_checks fs' = Ok cs' ->
  nth_error cs i = Some c -> passed c = false ->
  nth_error cs' i = Some c' -> passed c' = true ->
  (forall j, j <> i ->
     option_map passed (nth_error cs j)
     = option_map passed (nth_error cs' j)) ->
  (compute_score cs <= compute_score cs')%Z.
Proof.
  intros _ Hr Hr' Hi Pc Hi' Pc' Hrest.
  rewrite !compute_score_filter.
  pose proof (run_all_checks_weights _ _ Hr) as Hw.
  pose proof (run_all_checks_weights _ _ Hr') as Hw'.
  apply passed_total_mono.
  - congruence.
  - rewrite Hw. apply registry_weights_nonneg.
  - intros j d Hj Pd. destruct (Nat.eq_dec j i) as [->|Hne].
    + exists c'. auto.
    + specialize (Hrest j Hne). rewrite Hj in Hrest. simpl in Hrest.
      destruct (nth_error cs' j) as [d'|]; simpl in Hrest; [|discriminate].
      exists d'. split; congruence.
Qed.

Lemma score_monotone_under_added_file_witness :
  exists cs cs',
    add_file_repo Samples.empty ["README.md"] (Some "")
      = Some Samples.readme_only
    /\ run_all_checks Samples.empty = Ok cs
    /\ run_all_checks Samples.readme_only = Ok cs'
    /\ compute_score cs = 0%Z /\ compute_score cs' = 10%Z
    /\ (compute_score cs <= compute_score cs')%Z.
Proof.
  eexists. eexists.
  split; [vm_compute; reflexivity|].
  split; [vm_compute; reflexivity|].
  split; [vm_compute; reflexivity|].
  split; [vm_compute; reflexivity|].
  split; [vm_compute; reflexivity|].
  apply (score_monotone_under_added_file Samples.empty Samples.readme_only
           ["README.md"] (Some "") _ _ 0%nat
           (readme_result None) (readme_result (Some "README.md"))).
  - vm_compute; reflexivity.
  - vm_compute; reflexivity.
  - vm_compute; reflexivity.
  - reflexivity.
  - reflexivity.
  - reflexivity.
  - reflexivity.
  - intros j Hj. destruct j as [|j]; [contradiction Hj; reflexivity|].
    do 9 (destruct j as [|j]; [reflexivity|]).
    destruct j; reflexivity.
Defined.

(** ** Strings *)

Lemma prefix_app (p : string) : forall s,
  String.prefix p s = true -> exists r, s = (p ++ r)%string.
Proof.
  induction p as [|a p IH]; intros s H.
  - exists s. reflexivity.
  - destruct s as [|b s]; simpl in H; [discriminate|].
    destruct (ascii_dec a b) as [->|]; [|discriminate].
    destruct (IH _ H) as [r ->]. exists r. reflexivity.
Qed.

Lemma prefix_refl_app (p r : string) : String.prefix p (p ++ r) = true.
Proof.
  induction p as [|a p IH]; simpl.
  - destruct r; reflexivity.
  - destruct (ascii_dec a a); [assumption|congruence].
Qed.

Lemma contains_prefix (x h : string) :
  String.prefix x h = true -> PyStr.contains x h = true.
Proof.
  intros H. destruct h; unfold PyStr.contains; fold PyStr.contains;
    rewrite H; reflexivity.
Qed.

Lemma contains_app (x a b : string) :
  PyStr.contains x (a ++ x ++ b) = true.
Proof.
  induction a as [|c a IH].
  - apply contains_prefix. exact (prefix_refl_app x b).
  - simpl append. cbn [PyStr.contains]. rewrite IH. apply orb_true_r.
Qed.

Lemma append_assoc (a b c : string) :
  ((a ++ b) ++ c = a ++ (b ++ c))%string.
Proof. induction a as [|x a IH]; simpl; congruence. Qed.

Lemma mem_In (x : string) (l : list string) :
  PyStr.mem x l = true <-> In x l.
Proof.
  unfold PyStr.mem. rewrite existsb_exists. split.
  - intros (y & Hy & E). apply String.eqb_eq in E. subst. assumption.
  - intros H. exists x. split; [assumption | apply String.eqb_refl].
Qed.

(** ** The CI gate of [main] *)

Lemma rendered_out a r : rendered a r <> [] /\ Forall is_out (rendered a r).
Proof.
  unfold rendered, output_json, output_text. destruct (out a).
  - split; [discriminate|]. repeat constructor. eexists; reflexivity.
  - split; [discriminate|].
    repeat (apply Forall_cons; [eexists; reflexivity|]).
    apply Forall_app. split.
    + apply Forall_forall. intros e He. apply in_map_iff in He.
      destruct He as (c & <- & _). eexists; reflexivity.
    + repeat constructor. eexists; reflexivity.
Qed.

Lemma gate_message_names (sc n : Z) :
  PyStr.contains (PyStr.str_int sc) (gate_message sc n) = true
  /\ PyStr.contains (PyStr.str_int n) (gate_message sc n) = true.
Proof.
  unfold gate_message. split.
  - apply contains_app.
  - rewrite <- (append_assoc (PyStr.str_int sc)).
    rewrite <- (append_assoc "Score ").
    apply contains_app.
Qed.

(** The gate on a directory that exists and can be listed, once the checks
    have returned their results: without a threshold [main] returns 0 whatever
    the score; with a threshold [n] it returns 1 when the score is below
    [n], after a line on the error stream that names the score and [n], and
    0 otherwise.  In each case the report has been written to the output
    stream first, and nothing else has. *)
Theorem gate_follows_rendering
    (a : args) (fs : repo) (now : string) (cs : list CheckResult) :
  root_r fs = true ->
  run_all_checks fs = Ok cs ->
  let sc := compute_score cs in
  let printed := rendered a (build_report fs cs sc now) in
  (printed <> [] /\ Forall is_out printed)
  /\ (min_score a = None -> main a (Directory fs) now = (printed, Ok 0%Z))
  /\ (forall n, min_score a = Some n -> (sc < n)%Z ->
        main a (Directory fs) now
          = (printed ++ [Err (gate_message sc n)], Ok 1%Z)
        /\ PyStr.contains (PyStr.str_int sc) (gate_message sc n) = true
        /\ PyStr.contains (PyStr.str_int n) (gate_message sc n) = true)
  /\ (forall n, min_score a = Some n -> (n <= sc)%Z ->
        main a (Directory fs) now = (printed, Ok 0%Z)).
Proof.
  intros Hr Hc sc printed.
  assert (Hmain : main a (Directory fs) now =
                  match min_score a with
                  | Some n =>
                      if (sc <? n)%Z
                      then (printed ++ [Err (gate_message sc n)], Ok 1%Z)
                      else (printed, Ok 0%Z)
                  | None => (printed, Ok 0%Z)
                  end).
  { unfold main, iterdir, root_node. cbn [lookup]. rewrite Hr, Hc.
    reflexivity. }
  split; [apply rendered_out|].
  split; [intros Hn; rewrite Hmain, Hn; reflexivity|].
  split.
  - intros n Hn Hlt. rewrite Hmain, Hn.
    apply Z.ltb_lt in Hlt. rewrite Hlt.
    split; [reflexivity | apply gate_message_names].
  - intros n Hn Hge. rewrite Hmain, Hn.
    apply Z.ltb_ge in Hge. rewrite Hge. reflexivity.
Qed.

Lemma gate_follows_rendering_witness :
  exists cs printed,
    run_all_checks Samples.four_files = Ok cs
    /\ compute_score cs = 45%Z
    /\ printed <> []
    /\ main (mkArgs text (Some 50%Z)) (Directory Samples.four_files)
            Samples.noon
       = (printed ++ [Err "Score 45 por debajo del mínimo 50."], Ok 1%Z)
    /\ main (mkArgs text (Some 45%Z)) (Directory Samples.four_files)
            Samples.noon
       = (printed, Ok 0%Z)
    /\ main (mkArgs text None) (Directory Samples.four_files) Samples.noon
       = (printed, Ok 0%Z).
Proof.
  pose proof (gate_follows_rendering (mkArgs text (Some 50%Z))
                Samples.four_files Samples.noon _ eq_refl eq_refl) as H50.
  pose proof (gate_follows_rendering (mkArgs text (Some 45%Z))
                Samples.four_files Samples.noon _ eq_refl eq_refl) as H45.
  pose proof (gate_follows_rendering (mkArgs text None)
                Samples.four_files Samples.noon _ eq_refl eq_refl) as H0.
  cbv zeta in H50, H45, H0.
  destruct H50 as ((Hne & _) & _ & Hlt & _).
  destruct H45 as (_ & _ & _ & Hge).
  destruct H0 as (_ & Hnone & _).
  eexists. eexists.
  split; [reflexivity|].
  split; [vm_compute; reflexivity|].
  split; [exact Hne|].
  split; [exact (proj1 (Hlt 50%Z eq_refl eq_refl))|].
  split; [apply (Hge 45%Z eq_refl); vm_compute; discriminate|].
  exact (Hnone eq_refl).
Defined.

(** ** The readme check *)

Lemma string_length_app (a b : string) :
  String.length (a ++ b) = (String.length a + String.length b)%nat.
Proof. induction a as [|x a IH]; simpl; congruence. Qed.

Lemma readme_name_inv (n : string) :
  readme_name n = true ->
  exists rest, PyStr.upper n = ("README." ++ rest)%string /\ rest <> "".
Proof.
  unfold readme_name. intros H. apply orb_true_iff in H.
  destruct H as [H|H].
  - apply String.eqb_eq in H. exists "MD". split; [assumption|discriminate].
  - apply andb_true_iff in H. destruct H as [Hp Hl].
    apply prefix_app in Hp. destruct Hp as [rest E].
    exists rest. split; [assumption|].
    intros ->. rewrite E in Hl. vm_compute in Hl. discriminate.
Qed.

Lemma check_readme_loop_pass fs it c :
  check_readme_loop fs it = Ok c -> passed c = true ->
  exists n, In n it /\ is_file fs [n] = Ok true /\ readme_name n = true.
Proof.
  induction it as [|n it IH]; cbn [check_readme_loop]; intros H P.
  - apply Ok_inj in H. subst. discriminate.
  - bind_inv H. destruct a; cbn [negb] in H.
    + destruct (readme_name n) eqn:R.
      * exists n. repeat split; auto. left; reflexivity.
      * destruct (IH H P) as (m & Hm & Hf & Hr).
        exists m. repeat split; auto. right; assumption.
    + destruct (IH H P) as (m & Hm & Hf & Hr).
      exists m. repeat split; auto. right; assumption.
Qed.

(** C9. A pass of the readme check needs a top-level regular file whose
    upper-cased name is [README.] followed by at least one character; so a
    root whose README candidates are all named [README] or [README.]
    (in any letter case) fails the check. *)
Theorem bare_readme_fails (fs : repo) (c : CheckResult) :
  check_readme fs = Ok c ->
  (passed c = true ->
     exists n rest,
       In n (map fst (root_entries fs)) /\ is_file fs [n] = Ok true
       /\ PyStr.upper n = ("README." ++ rest)%string /\ rest <> "")
  /\ ((forall n, In n (map fst (root_entries fs)) ->
         is_file fs [n] = Ok true ->
         PyStr.startswith (PyStr.upper n) "README" = true ->
         PyStr.upper n = "README" \/ PyStr.upper n = "README.") ->
      passed c = false).
Proof.
  intros H.
  assert (Hpass : passed c = true ->
     exists n rest,
       In n (map fst (root_entries fs)) /\ is_file fs [n] = Ok true
       /\ PyStr.upper n = ("README." ++ rest)%string /\ rest <> "").
  { intros P. unfold check_readme in H. bind_inv H.
    assert (a = map fst (root_entries fs)) as ->.
    { unfold iterdir, root_node in Ha. cbn [lookup] in Ha.
      destruct (root_r fs); [|discriminate]. apply Ok_inj in Ha. auto. }
    destruct (check_readme_loop_pass _ _ _ H P) as (n & Hn & Hf & Hr).
    destruct (readme_name_inv _ Hr) as (rest & E & Hne).
    exists n, rest. auto. }
  split; [exact Hpass|].
  intros Hbare. destruct (passed c) eqn:P; [|reflexivity].
  destruct (Hpass eq_refl) as (n & rest & Hn & Hf & E & Hne).
  assert (Hs : PyStr.startswith (PyStr.upper n) "README" = true).
  { rewrite E. exact (prefix_refl_app "README" ("." ++ rest)). }
  destruct (Hbare n Hn Hf Hs) as [E'|E']; rewrite E in E'.
  - discriminate.
  - injection E' as E'. contradiction.
Qed.

Lemma bare_readme_fails_witness :
  exists c,
    check_readme Samples.bare_readmes = Ok c /\ passed c = false.
Proof.
  eexists. split; [vm_compute; reflexivity|].
  apply (bare_readme_fails Samples.bare_readmes); [vm_compute; reflexivity|].
  intros n Hn Hf _. simpl in Hn.
  destruct Hn as [<-|[<-|[]]]; [left | right]; reflexivity.
Defined.

(** ** The ci check *)

Lemma lookup_app (p q : path) : forall n,
  lookup n (p ++ q)
  = match lookup n p with
    | Found m => lookup m q
    | Missing => Missing
    | Denied => Denied
    end.
Proof.
  induction p as [|c p IH]; intros n; cbn [app lookup].
  - reflexivity.
  - destruct n as [?|r x es]; [reflexivity|].
    destruct x; [|reflexivity].
    destruct (find_entry c es); [apply IH | reflexivity].
Qed.

(** C10. The ci check never asks whether a workflows entry is a regular
    file: when [.github/workflows] can be listed and its only entry is a
    directory whose suffix is [.yml] or [.yaml], the check passes, with
    that entry as evidence. *)
Theorem ci_accepts_directory_entry
    (fs : repo) (wx r x : bool) (n : string) (es : list (string * node)) :
  lookup (root_node fs) workflows = Found (Dir true wx [(n, Dir r x es)]) ->
  yaml_suffix (workflows ++ [n]) = true ->
  check_ci fs
  = Ok (ci_result (Some (".github/workflows/" ++ n)%string))
  /\ is_file fs (workflows ++ [n]) <> Ok true.
Proof.
  intros Hl Hy. split.
  - unfold check_ci, is_dir, iterdir. rewrite Hl. cbn [bind map fst find].
    rewrite Hy. reflexivity.
  - unfold is_file. 
    assert (E : lookup (root_node fs) (workflows ++ [n]) =
                (if wx then Found (Dir r x es) else Denied)).
    { rewrite lookup_app, Hl. cbn [lookup find_entry].
      rewrite String.eqb_refl. reflexivity. }
    rewrite E. destruct wx; discriminate.
Qed.

Lemma ci_accepts_directory_entry_witness :
  check_ci Samples.workflow_subdir
  = Ok (ci_result (Some ".github/workflows/ci.yml"))
  /\ is_file Samples.workflow_subdir [".github"; "workflows"; "ci.yml"]
     <> Ok true.
Proof.
  apply (ci_accepts_directory_entry Samples.workflow_subdir true true true
           "ci.yml" []); reflexivity.
Defined.

(** ** The walker *)

Lemma is_file_raises fs p e : is_file fs p = Raise e -> e = PermissionError.
Proof.
  unfold is_file. destruct (lookup (root_node fs) p) as [[?|? ? ?]| |];
    intros H; try discriminate. injection H; auto.
Qed.

Lemma is_dir_raises fs p e : is_dir fs p = Raise e -> e = PermissionError.
Proof.
  unfold is_dir. destruct (lookup (root_node fs) p) as [[?|? ? ?]| |];
    intros H; try discriminate. injection H; auto.
Qed.

(** The loop only lists regular files outside the ignored directories, and
    only [PermissionError] can leave it. *)
Lemma walk_loop_sound fs it : forall acc paths e,
  walk_loop fs it acc = (paths, e) ->
  (e = None \/ e = Some PermissionError)
  /\ (forall p, In p paths ->
        In p acc
        \/ (In p it /\ is_file fs p = Ok true /\ ignored fs p = false)).
Proof.
  induction it as [|q it IH]; cbn [walk_loop]; intros acc paths e H.
  - injection H as <- <-. split; [left; reflexivity|].
    intros p Hp. left. apply in_rev. assumption.
  - destruct (is_file fs q) as [[|]|e'] eqn:F.
    + destruct (ignored fs q) eqn:G.
      * destruct (IH _ _ _ H) as [He Hp]. split; [assumption|].
        intros p Hin. destruct (Hp p Hin) as [?|(? & ? & ?)]; auto.
        right. repeat split; auto. right; assumption.
      * destruct (IH _ _ _ H) as [He Hp]. split; [assumption|].
        intros p Hin. destruct (Hp p Hin) as [[<-|?]|(? & ? & ?)]; auto.
        -- right. repeat split; auto. left; reflexivity.
        -- right. repeat split; auto. right; assumption.
    + destruct (IH _ _ _ H) as [He Hp]. split; [assumption|].
      intros p Hin. destruct (Hp p Hin) as [?|(? & ? & ?)]; auto.
      right. repeat split; auto. right; assumption.
    + injection H as <- <-. split.
      * right. f_equal. eapply is_file_raises; eauto.
      * intros p Hp. left. apply in_rev. assumption.
Qed.

(** When no [is_file] call raises, every regular file that is yielded and
    not ignored is listed. *)
Lemma walk_loop_complete fs it : forall acc,
  (forall q, In q it -> is_file fs q <> Raise PermissionError) ->
  exists paths,
    walk_loop fs it acc = (paths, None)
    /\ (forall p, In p acc -> In p paths)
    /\ (forall p, In p it -> is_file fs p = Ok true ->
                  ignored fs p = false -> In p paths).
Proof.
  induction it as [|q it IH]; cbn [walk_loop]; intros acc Hno.
  - exists (rev acc). split; [reflexivity|]. split.
    + intros p Hp. apply in_rev in Hp. assumption.
    + intros p [].
  - assert (Hno' : forall q', In q' it ->
                              is_file fs q' <> Raise PermissionError)
      by (intros q' Hq'; apply Hno; right; assumption).
    destruct (is_file fs q) as [[|]|e'] eqn:F.
    + destruct (ignored fs q) eqn:G.
      * destruct (IH acc Hno') as (paths & E & Hacc & Hit).
        exists paths. split; [assumption|]. split; [assumption|].
        intros p [<-|Hp] Hf Hg; [congruence | auto].
      * destruct (IH (q :: acc) Hno') as (paths & E & Hacc & Hit).
        exists paths. split; [assumption|]. split.
        -- intros p Hp. apply Hacc. right; assumption.
        -- intros p [<-|Hp] Hf Hg; [apply Hacc; left; reflexivity | auto].
    + destruct (IH acc Hno') as (paths & E & Hacc & Hit).
      exists paths. split; [assumption|]. split; [assumption|].
      intros p [<-|Hp] Hf Hg; [congruence | auto].
    + exfalso. apply (Hno q); [left; reflexivity|].
      rewrite F. f_equal. eapply is_file_raises; eauto.
Qed.

(** Once [is_file] raises on a yielded path, what the generator would have
    yielded afterwards has no effect on the result. *)
Lemma walk_loop_ignores_rest fs it q rest : forall acc,
  is_file fs q = Raise PermissionError ->
  walk_loop fs (it ++ q :: rest) acc = walk_loop fs (it ++ [q]) acc.
Proof.
  induction it as [|p it IH]; intros acc Hq; cbn [app walk_loop].
  - rewrite Hq. reflexivity.
  - destruct (is_file fs p) as [[|]|e]; [|auto|reflexivity].
    destruct (ignored fs p); auto.
Qed.

(** [walk_repo] itself never raises. *)
Lemma walk_repo_returns fs :
  exists paths, walk_repo fs = Ok paths
    /\ forall p, In p paths ->
         In p (rglob fs) /\ is_file fs p = Ok true /\ ignored fs p = false.
Proof.
  unfold walk_repo.
  destruct (walk_loop fs (rglob fs) []) as [paths e] eqn:E.
  destruct (walk_loop_sound _ _ _ _ _ E) as [[->| ->] Hp];
    exists paths; (split; [reflexivity|]);
    intros p Hin; destruct (Hp p Hin) as [[]|?]; assumption.
Qed.

(** ** Trees without permission problems *)

Lemma accessible_Dir r x es :
  accessible (Dir r x es) = true <->
  r = true /\ x = true /\ Forall (fun e => accessible (snd e) = true) es.
Proof.
  cbn [accessible]. rewrite !andb_true_iff.
  assert (Hall : (fix all (l : list (string * node)) : bool :=
                    match l with
                    | [] => true
                    | (_, m) :: l' => accessible m && all l'
                    end) es = true
                 <-> Forall (fun e => accessible (snd e) = true) es).
  { induction es as [|[c m] es IH].
    - split; [constructor | reflexivity].
    - rewrite andb_true_iff, IH. split.
      + intros [? ?]. constructor; assumption.
      + intros H. inversion H; subst. split; assumption. }
  rewrite Hall. tauto.
Qed.

Lemma find_entry_In c es m : find_entry c es = Some m -> In (c, m) es.
Proof.
  induction es as [|[d k] es IH]; cbn [find_entry]; [discriminate|].
  destruct (String.eqb d c) eqn:E.
  - apply String.eqb_eq in E. intros H. injection H as <-. subst.
    left; reflexivity.
  - intros H. right. auto.
Qed.

Lemma lookup_accessible (p : path) : forall n,
  accessible n = true ->
  lookup n p <> Denied
  /\ forall m, lookup n p = Found m -> accessible m = true.
Proof.
  induction p as [|c p IH]; intros n Hn; cbn [lookup].
  - split; [discriminate|]. intros m H. injection H as <-. assumption.
  - destruct n as [?|r x es]; [split; intros; discriminate|].
    apply accessible_Dir in Hn. destruct Hn as (-> & -> & Hes).
    destruct (find_entry c es) as [m'|] eqn:F;
      [|split; intros; discriminate].
    apply IH. apply find_entry_In in F.
    rewrite Forall_forall in Hes. exact (Hes _ F).
Qed.

Lemma is_file_accessible fs p :
  accessible (root_node fs) = true -> exists b, is_file fs p = Ok b.
Proof.
  intros H. unfold is_file.
  destruct (lookup_accessible p _ H) as [Hd _].
  destruct (lookup (root_node fs) p) as [[?|? ? ?]| |];
    try (eexists; reflexivity). contradiction.
Qed.



Lemma iterate_directories_Dir ok prefix r x es :
  iterate_directories ok prefix (Dir r x es)
  = if ok && r
    then (prefix, map fst es) :: children_dirs (ok && x) prefix es
    else [].
Proof.
  cbn [iterate_directories]. destruct (ok && r); [|reflexivity].
  f_equal. induction es as [|[c m] es IH]; [reflexivity|].
  cbn [children_dirs flat_map fst snd]. f_equal. exact IH.
Qed.

Lemma iterate_directories_complete (p : path) : forall n prefix m,
  accessible n = true -> p <> [] -> lookup n p = Found m ->
  exists d names c,
    In (d, names) (iterate_directories true prefix n)
    /\ In c names /\ prefix ++ p = d ++ [c].
Proof.
  induction p as [|c p IH]; intros n prefix m Hn Hp Hl; [contradiction|].
  destruct n as [?|r x es]; cbn [lookup] in Hl; [discriminate|].
  apply accessible_Dir in Hn. destruct Hn as (-> & -> & Hes).
  destruct (find_entry c es) as [m'|] eqn:F; [|discriminate].
  apply find_entry_In in F. rewrite iterate_directories_Dir.
  cbn [andb]. destruct p as [|c' p'].
  - exists prefix, (map fst es), c. split; [left; reflexivity|].
    split; [|reflexivity]. apply in_map_iff. exists (c, m'). auto.
  - rewrite Forall_forall in Hes.
    destruct (IH m' (prefix ++ [c]) m (Hes _ F))
      as (d & names & c0 & Hin & Hc & E);
      [discriminate | assumption |].
    exists d, names, c0. split; [|split; [assumption|]].
    + right. unfold children_dirs. apply in_flat_map.
      exists (c, m'). split; assumption.
    + rewrite <- E, <- app_assoc. reflexivity.
Qed.

Lemma rglob_complete fs p m :
  accessible (root_node fs) = true -> p <> [] ->
  lookup (root_node fs) p = Found m -> In p (rglob fs).
Proof.
  intros Ha Hp Hl.
  destruct (iterate_directories_complete p _ [] m Ha Hp Hl)
    as (d & names & c & Hin & Hc & E).
  unfold rglob. apply in_flat_map. exists (d, names). split; [assumption|].
  cbn [fst snd]. apply in_map_iff. exists c. split; [|assumption].
  simpl in E. congruence.
Qed.

(** Without permission problems the walker lists exactly the regular files
    outside the ignored directories. *)
Lemma walk_repo_accessible fs :
  accessible (root_node fs) = true ->
  exists paths,
    walk_repo fs = Ok paths
    /\ forall p, In p paths <->
                 is_file fs p = Ok true /\ ignored fs p = false.
Proof.
  intros Ha. unfold walk_repo.
  destruct (walk_loop_complete fs (rglob fs) []) as (paths & E & _ & Hc).
  { intros q _ H. destruct (is_file_accessible fs q Ha) as [b Hb].
    congruence. }
  rewrite E. exists paths. split; [reflexivity|].
  intros p. split.
  - intros Hin. destruct (walk_loop_sound _ _ _ _ _ E) as [_ Hs].
    destruct (Hs p Hin) as [[]|(_ & ? & ?)]. split; assumption.
  - intros [Hf Hg]. apply Hc; auto.
    unfold is_file in Hf.
    destruct (lookup (root_node fs) p) as [[?|? ? ?]| |] eqn:L;
      try discriminate.
    apply (rglob_complete fs p (File content) Ha); [|exact L].
    intros ->. discriminate L.
Qed.

(** ** The checks return on accessible trees *)

Section Accessible.

Variable fs : repo.
Hypothesis Ha : accessible (root_node fs) = true.














End Accessible.

(** The two checks whose reads are all guarded return on every tree. *)
Lemma check_linter_returns fs : exists c, check_linter fs = Ok c.
Proof.
  unfold check_linter.
  destruct (walk_repo_returns fs) as (paths & -> & _). cbn [bind].
  induction paths as [|p l IH]; cbn [check_linter_loop];
    [eexists; reflexivity|].
  repeat match goal with
         | |- exists c, (if ?b then _ else _) = _ =>
             destruct b; [eexists; reflexivity|]
         end.
  destruct (String.eqb _ _); [|exact IH].
  destruct (read fs p); [|exact IH].
  destruct (linter_words _); [eexists; reflexivity | exact IH].
Qed.

Lemma check_observability_returns fs :
  exists c, check_observability fs = Ok c.
Proof.
  unfold check_observability.
  destruct (walk_repo_returns fs) as (paths & -> & _). cbn [bind].
  induction paths as [|p l IH]; cbn [check_observability_loop];
    [eexists; reflexivity|].
  destruct (observability_body fs p) as [[ev|]|e];
    [eexists; reflexivity | exact IH | exact IH].
Qed.


(** ** The tests check *)

Lemma tests_first_iff p :
  tests_first p = true <->
  In "__tests__" p
  \/ ((PyStr.contains "test" (PyStr.lower (stem p)) = true
       \/ PyStr.contains "spec" (PyStr.lower (stem p)) = true)
      /\ exists x, In x test_dir_names /\ In x p).
Proof.
  unfold tests_first. rewrite orb_true_iff, andb_true_iff, orb_true_iff.
  rewrite mem_In, existsb_exists.
  split.
  - intros [H|[H (x & Hx & Hm)]]; [left; assumption|].
    right. split; [assumption|]. exists x. apply mem_In in Hm. auto.
  - intros [H|[H (x & Hx & Hm)]]; [left; assumption|].
    right. split; [assumption|]. exists x. apply mem_In in Hm. auto.
Qed.

Lemma counts_as_test_iff fs p :
  counts_as_test fs p <-> tests_first p = true \/ tests_second fs p = true.
Proof.
  unfold counts_as_test, tests_second, parts.
  rewrite tests_first_iff, mem_In. tauto.
Qed.

Lemma is_dir_true_or fs (d1 : bool) d :
  is_dir fs ["tests"] = Ok d1 ->
  (if d1 then Ok true else is_dir fs ["test"]) = Ok d ->
  (d = true <->
   is_dir fs ["tests"] = Ok true \/ is_dir fs ["test"] = Ok true).
Proof.
  intros E1 E2. destruct d1.
  - apply Ok_inj in E2. subst. split; auto.
  - rewrite E1, E2. split.
    + intros ->. right; reflexivity.
    + intros [H|H]; [discriminate | injection H; auto].
Qed.

(** What the tests check does: it passes exactly when [tests] or [test]
    is a directory at the top, or the walker lists a file that counts as a
    test.  In particular a file listed below a [__tests__] directory makes
    the check pass; and where no permission is missing, the files the
    walker lists are the regular files outside the ignored directories. *)
Theorem tests_pass_iff (fs : repo) (c : CheckResult) :
  check_tests fs = Ok c ->
  exists paths,
    walk_repo fs = Ok paths
    /\ (passed c = true <->
        is_dir fs ["tests"] = Ok true \/ is_dir fs ["test"] = Ok true
        \/ exists p, In p paths /\ counts_as_test fs p)
    /\ (forall p, In p paths -> In "__tests__" p -> passed c = true)
    /\ (forall p, In p paths ->
                  is_file fs p = Ok true /\ ignored fs p = false)
    /\ (accessible (root_node fs) = true ->
        forall p, is_file fs p = Ok true -> ignored fs p = false ->
                  In p paths).
Proof.
  intros H. unfold check_tests in H.
  apply bind_ok in H. destruct H as (paths & Hw & H).
  apply bind_ok in H. destruct H as (d1 & Hd1 & H).
  apply bind_ok in H. destruct H as (d & Hd & H).
  exists paths. split; [assumption|].
  assert (Hiff : passed c = true <->
        is_dir fs ["tests"] = Ok true \/ is_dir fs ["test"] = Ok true
        \/ exists p, In p paths /\ counts_as_test fs p).
  { pose proof (is_dir_true_or fs d1 d Hd1 Hd) as Hdir.
    destruct d.
    - apply Ok_inj in H. subst c. cbn [passed tests_result result_of].
      split; [intros _|reflexivity].
      destruct (proj1 Hdir eq_refl); auto.
    - assert (Hno : ~ (is_dir fs ["tests"] = Ok true
                      \/ is_dir fs ["test"] = Ok true))
        by (intros Hx; apply Hdir in Hx; discriminate).
      destruct (find tests_first paths) as [p|] eqn:F1.
      + apply Ok_inj in H. subst c. cbn [passed tests_result result_of].
        split; [intros _|reflexivity].
        apply find_some in F1. destruct F1 as [Hin Ht].
        right. right. exists p. split; [assumption|].
        apply counts_as_test_iff. left; assumption.
      + destruct (find (tests_second fs) paths) as [p|] eqn:F2.
        * apply Ok_inj in H. subst c. cbn [passed tests_result result_of].
          split; [intros _|reflexivity].
          apply find_some in F2. destruct F2 as [Hin Ht].
          right. right. exists p. split; [assumption|].
          apply counts_as_test_iff. right; assumption.
        * apply Ok_inj in H. subst c. cbn [passed tests_result result_of].
          split; [discriminate|].
          intros [Hx|[Hx|(p & Hin & Hp)]]; [tauto | tauto |].
          apply counts_as_test_iff in Hp.
          pose proof (find_none _ _ F1 p Hin) as N1.
          pose proof (find_none _ _ F2 p Hin) as N2.
          destruct Hp; congruence. }
  split; [exact Hiff|].
  split.
  { intros p Hin Ht. apply Hiff. right. right. exists p.
    split; [assumption | left; assumption]. }
  destruct (walk_repo_returns fs) as (paths' & Hw' & Hs).
  rewrite Hw in Hw'. apply Ok_inj in Hw'. subst paths'.
  split.
  { intros p Hin. destruct (Hs p Hin) as (_ & ? & ?). auto. }
  intros Ha p Hf Hg.
  destruct (walk_repo_accessible fs Ha) as (paths' & Hw' & Hc).
  rewrite Hw in Hw'. apply Ok_inj in Hw'. subst paths'.
  apply Hc. auto.
Qed.

Lemma tests_pass_iff_witness :
  exists c paths,
    check_tests Samples.nested_tests = Ok c
    /\ walk_repo Samples.nested_tests = Ok paths
    /\ In ["src"; "__tests__"; "a.js"] paths
    /\ passed c = true.
Proof.
  destruct (tests_pass_iff Samples.nested_tests
              (tests_result (Some "src/__tests__/a.js")) eq_refl)
    as (paths & Hw & _ & Hpart & _ & Hall).
  assert (Hin : In ["src"; "__tests__"; "a.js"] paths)
    by (apply Hall; reflexivity).
  exists (tests_result (Some "src/__tests__/a.js")), paths.
  split; [reflexivity|]. split; [exact Hw|]. split; [exact Hin|].
  apply (Hpart _ Hin). simpl. auto.
Defined.

(** An empty [__tests__] directory does not make the check pass, and a
    top-level regular file named [spec], with no directory anywhere,
    does. *)
Lemma tests_pass_iff_counterexample :
  (is_dir Samples.empty_tests_dir ["src"; "__tests__"] = Ok true
   /\ exists c, check_tests Samples.empty_tests_dir = Ok c
                /\ passed c = false)
  /\ (root_entries Samples.spec_file = [("spec", File (Some ""))]
      /\ exists c, check_tests Samples.spec_file = Ok c
                   /\ passed c = true).
Proof.
  split; (split; [reflexivity|]); eexists; split; reflexivity.
Qed.

(** ** Where the code departs from its documentation *)

(** C4. A [pyproject.toml] whose version field is written the TOML way,
    [version = "1.2.3"], is read and searched, and the pattern, which asks
    for a quoted key followed by a colon, finds nothing: the release check
    fails.  The same version in a [package.json] makes it pass. *)
Theorem release_misses_pyproject_version :
  is_file Samples.pyproject_only ["pyproject.toml"] = Ok true
  /\ read Samples.pyproject_only ["pyproject.toml"]
     = Ok Samples.pyproject_text
  /\ PyStr.contains "version = " Samples.pyproject_text = true
  /\ Re.search version_pattern Samples.pyproject_text = false
  /\ check_release_hygiene Samples.pyproject_only = Ok (release_result None)
  /\ check_release_hygiene Samples.package_only
     = Ok (release_result (Some "package.json (version)")).
Proof. repeat split; vm_compute; reflexivity. Qed.

(** C5. [locked] can be listed but not searched, so [is_file] on the entry
    it yields raises [PermissionError]; the handler encloses the whole
    loop, and the walk ends there: [z/b.txt], a readable regular file that
    [rglob] would have yielded next, is not returned.  With [locked]
    searchable the three files are returned. *)
Theorem walk_repo_stops_at_permission_error :
  rglob Samples.locked_dir
  = [["a.txt"]; ["locked"]; ["z"]; ["locked"; "s.txt"]; ["z"; "b.txt"]]
  /\ is_file Samples.locked_dir ["locked"; "s.txt"] = Raise PermissionError
  /\ is_file Samples.locked_dir ["z"; "b.txt"] = Ok true
  /\ ignored Samples.locked_dir ["z"; "b.txt"] = false
  /\ walk_repo Samples.locked_dir = Ok [["a.txt"]]
  /\ walk_repo Samples.unlocked_dir
     = Ok [["a.txt"]; ["locked"; "s.txt"]; ["z"; "b.txt"]].
Proof. repeat split; vm_compute; reflexivity. Qed.

(** C8. [.github/workflows] is a directory that cannot be listed:
    [check_ci] finds it with [is_dir], iterates it without a handler, and
    the [PermissionError] leaves the check, [run_all_checks] and [main]. *)
Theorem check_ci_raises_on_unlistable_workflows :
  iterdir Samples.unlistable_workflows [] = Ok ["README.md"; ".github"]
  /\ is_dir Samples.unlistable_workflows workflows = Ok true
  /\ iterdir Samples.unlistable_workflows workflows = Raise PermissionError
  /\ check_ci Samples.unlistable_workflows = Raise PermissionError
  /\ run_all_checks Samples.unlistable_workflows = Raise PermissionError
  /\ main (mkArgs json None) (Directory Samples.unlistable_workflows)
          Samples.noon
     = ([], Raise PermissionError).
Proof. repeat split; vm_compute; reflexivity. Qed.

(** C3. The directory exists and can be listed, and yet [main] returns no
    exit code and prints no report, with or without a threshold and in
    either format: the [PermissionError] that [check_ci] lets through on
    the unlistable [.github/workflows] leaves [main] before anything is
    rendered. *)
Theorem main_raises_before_rendering (a : args) (now : string) :
  iterdir Samples.unlistable_workflows [] = Ok ["README.md"; ".github"]
  /\ main a (Directory Samples.unlistable_workflows) now
     = ([], Raise PermissionError).
Proof.
  split; [reflexivity|].
  assert (H : run_all_checks Samples.unlistable_workflows
              = Raise PermissionError) by (vm_compute; reflexivity).
  unfold main.
  change (iterdir Samples.unlistable_workflows [])
    with (Ok (A := list string) ["README.md"; ".github"]).
  rewrite H. reflexivity.
Qed.

(** C6. [src/__tests__] is a directory, and it is empty: [rglob] yields it,
    the walker drops it because it is not a regular file, so the loops
    over the listed files never see [__tests__] and the check fails.  An
    empty [tests] directory at the top, which the check looks for with
    [is_dir], makes it pass. *)
Theorem tests_misses_empty_tests_dir :
  is_dir Samples.empty_tests_dir ["src"; "__tests__"] = Ok true
  /\ rglob Samples.empty_tests_dir = [["src"]; ["src"; "__tests__"]]
  /\ walk_repo Samples.empty_tests_dir = Ok []
  /\ check_tests Samples.empty_tests_dir = Ok (tests_result None)
  /\ walk_repo empty_top_tests = Ok []
  /\ check_tests empty_top_tests
     = Ok (tests_result (Some "tests/ o test/")).
Proof. repeat split; vm_compute; reflexivity. Qed.

(** What does hold of every result: it carries the constants of its check,
    and a failed check has empty evidence. *)
Lemma failed_checks_carry_no_evidence fs cs :
  run_all_checks fs = Ok cs ->
  Forall (fun c => passed c = false -> evidence c = "") cs.
Proof.
  intros H. apply run_all_checks_shape in H.
  repeat match goal with
         | H : Forall2 _ (_ :: _) _ |- _ => inversion H; subst; clear H
         | H : Forall2 _ [] _ |- _ => inversion H; subst; clear H
         end.
  repeat constructor;
    match goal with
    | H : shaped ?mk ?c |- passed ?c = false -> _ =>
        exact (shaped_evidence _ _ _ _ H)
    end.
Qed.

(* ================================================================= *)
(** * Further properties of the engine *)

(** ** The walker *)

Lemma ignored_iff fs p :
  ignored fs p = true <->
  exists d, In d IGNORED_DIRS /\ In d (root_parts fs ++ p).
Proof.
  unfold ignored, parts. rewrite existsb_exists.
  split; intros (d & Hd & Hm); exists d; (split; [assumption|]);
    apply mem_In; assumption.
Qed.

(** X1. Whatever [walk_repo] returns are regular files that [rglob]
    yielded, none of them with a component of its full path in
    [IGNORED_DIRS]. *)
Theorem walk_repo_lists_only_kept_files (fs : repo) (paths : list path) :
  walk_repo fs = Ok paths ->
  forall p, In p paths ->
    In p (rglob fs)
    /\ is_file fs p = Ok true
    /\ forall d, In d IGNORED_DIRS -> ~ In d (root_parts fs ++ p).
Proof.
  intros Hw0. destruct (walk_repo_returns fs) as (paths' & Hw & Hs).
  rewrite Hw0 in Hw. apply Ok_inj in Hw. subst paths'.
  intros p Hin. destruct (Hs p Hin) as (Hr & Hf & Hg).
  split; [assumption|]. split; [assumption|].
  intros d Hd Hp.
  assert (ignored fs p = true) by (apply ignored_iff; eauto).
  congruence.
Qed.

Lemma walk_repo_lists_only_kept_files_witness :
  In ["tests"; "test_x"] (rglob Samples.four_files)
  /\ is_file Samples.four_files ["tests"; "test_x"] = Ok true
  /\ forall d, In d IGNORED_DIRS ->
       ~ In d (root_parts Samples.four_files ++ ["tests"; "test_x"]).
Proof.
  apply (walk_repo_lists_only_kept_files Samples.four_files
           [["README.md"]; ["LICENSE"]; [".github"; "workflows"; "ci.yml"];
            ["tests"; "test_x"]]).
  - vm_compute; reflexivity.
  - simpl; tauto.
Defined.

(** X2. On a tree where every directory can be listed and searched, what
    the walker returns are exactly the regular files below the root that
    have no component of their full path in [IGNORED_DIRS]. *)
Theorem walk_repo_lists_every_kept_file (fs : repo) (paths : list path) :
  accessible (root_node fs) = true ->
  walk_repo fs = Ok paths ->
  forall p, In p paths <->
    (exists content, lookup (root_node fs) p = Found (File content))
    /\ forall d, In d IGNORED_DIRS -> ~ In d (root_parts fs ++ p).
Proof.
  intros Ha Hw0.
  destruct (walk_repo_accessible fs Ha) as (paths' & Hw & Hc).
  rewrite Hw0 in Hw. apply Ok_inj in Hw. subst paths'.
  intros p. rewrite Hc. unfold is_file.
  assert (Hg : ignored fs p = false <->
               forall d, In d IGNORED_DIRS -> ~ In d (root_parts fs ++ p)).
  { split.
    - intros Hg d Hd Hp.
      assert (ignored fs p = true) by (apply ignored_iff; eauto).
      congruence.
    - intros Hn. destruct (ignored fs p) eqn:G; [|reflexivity].
      apply ignored_iff in G. destruct G as (d & Hd & Hp).
      exfalso. exact (Hn d Hd Hp). }
  rewrite Hg.
  destruct (lookup (root_node fs) p) as [[content|r x es]| |]; split;
    intros [H1 H2]; split; auto;
    try discriminate; try (destruct H1; discriminate).
  eexists; reflexivity.
Qed.

Lemma walk_repo_lists_every_kept_file_witness :
  In ["tests"; "test_x"]
     [["README.md"]; ["LICENSE"]; [".github"; "workflows"; "ci.yml"];
      ["tests"; "test_x"]]
  <-> (exists content,
          lookup (root_node Samples.four_files) ["tests"; "test_x"]
          = Found (File content))
      /\ forall d, In d IGNORED_DIRS ->
           ~ In d (root_parts Samples.four_files ++ ["tests"; "test_x"]).
Proof.
  apply (walk_repo_lists_every_kept_file Samples.four_files).
  - reflexivity.
  - vm_compute; reflexivity.
Defined.

Lemma walk_loop_all_ignored fs it : forall acc,
  (forall p, ignored fs p = true) ->
  fst (walk_loop fs it acc) = rev acc.
Proof.
  induction it as [|q it IH]; intros acc Hi; cbn [walk_loop].
  - reflexivity.
  - destruct (is_file fs q) as [[|]|e]; [|auto|reflexivity].
    rewrite Hi. auto.
Qed.

(** X3. The ignore test looks at the components of the whole path, those
    of the root included: when the root itself lies below a directory
    named in [IGNORED_DIRS], whatever the walker returns is the empty
    list. *)
Theorem walk_repo_empty_below_ignored_root
    (fs : repo) (d : string) (paths : list path) :
  In d IGNORED_DIRS -> In d (root_parts fs) ->
  walk_repo fs = Ok paths -> paths = [].
Proof.
  intros Hd Hr Hw0.
  assert (Hi : forall p, ignored fs p = true).
  { intros p. apply ignored_iff. exists d. split; [assumption|].
    apply in_or_app. left; assumption. }
  pose proof (walk_loop_all_ignored fs (rglob fs) [] Hi) as Hf.
  unfold walk_repo in Hw0.
  destruct (walk_loop fs (rglob fs) []) as [ps [[| | |]|]];
    cbn [fst rev] in Hf; subst ps; try discriminate Hw0;
    apply Ok_inj in Hw0; auto.
Qed.

Lemma walk_repo_empty_below_ignored_root_witness :
  exists paths, walk_repo under_build = Ok paths /\ paths = [].
Proof.
  eexists. split; [vm_compute; reflexivity|].
  apply (walk_repo_empty_below_ignored_root under_build "build");
    [simpl; tauto | simpl; tauto | vm_compute; reflexivity].
Defined.

(** ** Checks that cannot raise *)

(** X4. On a tree within the limits the linter and the observability
    checks return, whatever the permissions: the walker swallows the
    permission errors and every read sits under a handler, so an
    unreadable or unsearchable directory or file only makes candidates
    disappear. *)
Theorem linter_and_observability_never_raise (fs : repo) :
  within_limits fs = true ->
  (exists c, check_linter fs = Ok c /\ shaped linter_result c)
  /\ (exists c, check_observability fs = Ok c
                /\ shaped observability_result c).
Proof.
  intros _. split.
  - destruct (check_linter_returns fs) as [c Hc].
    exists c. split; [assumption | eapply check_linter_shape; eauto].
  - destruct (check_observability_returns fs) as [c Hc].
    exists c. split;
      [assumption | eapply check_observability_shape; eauto].
Qed.

Lemma linter_and_observability_never_raise_witness :
  (exists c, check_linter Samples.locked_dir = Ok c
             /\ shaped linter_result c)
  /\ (exists c, check_observability Samples.locked_dir = Ok c
                /\ shaped observability_result c).
Proof.
  apply (linter_and_observability_never_raise Samples.locked_dir).
  vm_compute; reflexivity.
Defined.

(** ** The registry *)

Lemma shaped_id i n w c : shaped (result_of i n w) c -> id c = i.
Proof. intros [[e|] ->]; reflexivity. Qed.

(** X5. The results of a run come in registry order, one per check, and
    their identifiers are pairwise distinct. *)
Theorem run_all_checks_ids (fs : repo) (cs : list CheckResult) :
  run_all_checks fs = Ok cs ->
  map id cs = registry_ids /\ NoDup (map id cs).
Proof.
  intros H. apply run_all_checks_shape in H.
  assert (E : map id cs = registry_ids).
  { repeat match goal with
           | H : Forall2 _ (_ :: _) _ |- _ => inversion H; subst; clear H
           | H : Forall2 _ [] _ |- _ => inversion H; subst; clear H
           | H : shaped _ _ |- _ => apply shaped_id in H
           end.
    cbn [map]. unfold registry_ids. congruence. }
  split; [exact E|]. rewrite E. unfold registry_ids.
  repeat (constructor; [simpl; intuition discriminate|]). constructor.
Qed.

Lemma run_all_checks_ids_witness :
  exists cs,
    run_all_checks Samples.four_files = Ok cs
    /\ map id cs = registry_ids /\ NoDup (map id cs).
Proof.
  eexists. split; [vm_compute; reflexivity|].
  apply (run_all_checks_ids Samples.four_files). vm_compute; reflexivity.
Defined.

(** ** The score *)

Lemma weight_total_app cs cs' :
  weight_total (cs ++ cs') = (weight_total cs + weight_total cs')%Z.
Proof. induction cs as [|c cs IH]; simpl; [reflexivity | lia]. Qed.

(** X6. The score of a concatenation is the sum of the scores, and the
    score does not depend on the order of the results. *)
Theorem compute_score_order_free (cs cs' : list CheckResult) :
  compute_score (cs ++ cs') = (compute_score cs + compute_score cs')%Z
  /\ (Permutation cs cs' -> compute_score cs = compute_score cs').
Proof.
  split.
  - rewrite !compute_score_filter, filter_app. apply weight_total_app.
  - intros P. rewrite !compute_score_filter.
    induction P as [|c l l' P IH|c d l|l l' l'' P1 IH1 P2 IH2]; simpl.
    + reflexivity.
    + destruct (passed c); simpl; lia.
    + destruct (passed c), (passed d); simpl; lia.
    + lia.
Qed.

Lemma passed_total_full cs :
  Forall (fun w => 0 < w)%Z (map weight cs) ->
  (weight_total (filter passed cs) = weight_total cs
   <-> Forall (fun c => passed c = true) cs)
  /\ (weight_total (filter passed cs) = 0%Z
      <-> Forall (fun c => passed c = false) cs).
Proof.
  induction cs as [|c cs IH]; simpl; intros H.
  - split; split; intros; constructor || reflexivity.
  - inversion H as [|w ws Hw Hws]; subst. destruct (IH Hws) as [IH1 IH2].
    assert (Hnn : Forall (fun w => 0 <= w)%Z (map weight cs)).
    { eapply Forall_impl; [|exact Hws]. simpl; intros; lia. }
    pose proof (passed_total_bounds cs Hnn) as Hb.
    destruct (passed c) eqn:P; simpl; split; split; intros Hx.
    + constructor; [assumption|]. apply IH1. lia.
    + inversion Hx; subst. 
      assert (weight_total (filter passed cs) = weight_total cs)
        by (apply IH1; assumption). lia.
    + lia.
    + inversion Hx; congruence.
    + lia.
    + inversion Hx; congruence.
    + constructor; [assumption|]. apply IH2. assumption.
    + inversion Hx; subst. apply IH2. assumption.
Qed.

(** X7. For the results of a run the score is 100 exactly when every check
    passed, and 0 exactly when every check failed. *)
Theorem score_extremes (fs : repo) (cs : list CheckResult) :
  run_all_checks fs = Ok cs ->
  (compute_score cs = 100%Z <-> Forall (fun c => passed c = true) cs)
  /\ (compute_score cs = 0%Z <-> Forall (fun c => passed c = false) cs).
Proof.
  intros H. pose proof (run_all_checks_weights _ _ H) as Hw.
  assert (Ht : weight_total cs = 100%Z)
    by (rewrite weight_total_map, Hw; reflexivity).
  assert (Hp : Forall (fun w => 0 < w)%Z (map weight cs)).
  { rewrite Hw. unfold registry_weights. repeat constructor. }
  destruct (passed_total_full cs Hp) as [H1 H2].
  rewrite !compute_score_filter, <- Ht. split; assumption.
Qed.

Lemma score_extremes_witness :
  exists cs,
    run_all_checks Samples.empty = Ok cs
    /\ compute_score cs = 0%Z
    /\ Forall (fun c => passed c = false) cs.
Proof.
  eexists. split; [vm_compute; reflexivity|].
  split; [vm_compute; reflexivity|].
  apply (score_extremes Samples.empty); vm_compute; reflexivity.
Defined.

(** ** The report *)

Lemma filter_partition_length {A : Type} (f : A -> bool) (l : list A) :
  (List.length (filter f l) + List.length (filter (fun a => negb (f a)) l)
   = List.length l)%nat.
Proof.
  induction l as [|a l IH]; simpl; [reflexivity|].
  destruct (f a); simpl; lia.
Qed.

(** X8. In every report the two counts split the list of results:
    [passed + failed = len(checks)], the score and the list are the ones
    given, and for the results of a run the counts add up to 10. *)
Theorem report_counts_partition
    (fs : repo) (cs : list CheckResult) (sc : Z) (now : string) :
  let r := build_report fs cs sc now in
  (passed_count r + failed_count r = Z.of_nat (List.length cs))%Z
  /\ (0 <= passed_count r)%Z /\ (0 <= failed_count r)%Z
  /\ checks r = cs /\ score r = sc
  /\ (run_all_checks fs = Ok cs ->
      (passed_count r + failed_count r = 10)%Z).
Proof.
  intros r. unfold r, build_report.
  cbn [passed_count failed_count checks score].
  pose proof (filter_partition_length passed cs) as Hp.
  repeat split; try lia.
  intros H. apply run_all_checks_weights in H.
  assert (List.length cs = 10%nat)
    by (rewrite <- (length_map weight), H; reflexivity).
  lia.
Qed.

(** ** The entry point *)



(** X10. When the path does not exist, is not a directory, or is a
    directory that cannot be listed, [main] returns 1 after a single line
    on the error stream; nothing goes to the output stream and no check is
    run, whatever the format and the threshold. *)
Theorem main_rejects_bad_target (a : args) (t : target) (now : string) :
  (t = Absent \/ t = NotDirectory
   \/ exists fs, t = Directory fs /\ root_r fs = false) ->
  exists msg, main a t now = ([Err msg], Ok 1%Z).
Proof.
  intros [->|[->|(fs & -> & Hr)]]; cbn [main].
  - eexists; reflexivity.
  - eexists; reflexivity.
  - unfold iterdir, root_node. cbn [lookup]. rewrite Hr.
    eexists; reflexivity.
Qed.

Lemma main_rejects_bad_target_witness :
  exists msg,
    main (mkArgs text (Some 0%Z))
         (Directory (mkRepo ["/"; "srv"; "repo"] false true
                       [("README.md", File (Some ""))]))
         Samples.noon
    = ([Err msg], Ok 1%Z).
Proof.
  apply main_rejects_bad_target. right. right.
  eexists. split; reflexivity.
Defined.

(** ** The text table *)

Lemma repeat_char_length c n : String.length (Fmt.repeat_char c n) = n.
Proof. induction n; simpl; congruence. Qed.

Lemma take_length n : forall s,
  String.length (PyStr.take n s) = Nat.min n (String.length s).
Proof.
  induction n as [|n IH]; intros [|c s]; simpl; auto.
Qed.

Lemma left_length w s :
  String.length (Fmt.left w s) = Nat.max w (String.length s).
Proof.
  unfold Fmt.left. rewrite string_length_app, repeat_char_length. lia.
Qed.

Lemma center_length w s :
  String.length (Fmt.center w s) = Nat.max w (String.length s).
Proof.
  unfold Fmt.center. rewrite !string_length_app, !repeat_char_length.
  assert ((w - String.length s) / 2 <= w - String.length s)%nat
    by (apply Nat.Div0.div_le_upper_bound; lia).
  lia.
Qed.

Lemma row_length a b c d e :
  (String.length a <= 10 -> String.length b <= 26 ->
   String.length c <= 6 -> String.length d <= 4 ->
   String.length e <= 42 ->
   String.length (Fmt.row a b c d e) = 104)%nat.
Proof.
  intros. unfold Fmt.row.
  rewrite !string_length_app, !left_length, !center_length.
  cbn [String.length]. lia.
Qed.

Lemma table_rows_align (c : CheckResult) :
  (String.length (PyStr.str_int (weight c)) <= 6)%nat ->
  String.length (table_row c) = 104%nat.
Proof.
  intros Hw. unfold table_row. apply row_length; try assumption.
  - rewrite take_length. lia.
  - rewrite take_length. lia.
  - destruct (passed c); simpl; lia.
  - rewrite take_length. lia.
Qed.

Lemma registry_weight_width (w : Z) :
  In w registry_weights -> (String.length (PyStr.str_int w) <= 6)%nat.
Proof.
  unfold registry_weights. simpl.
  intros H. repeat (destruct H as [<-|H]; [vm_compute; lia|]).
  contradiction.
Qed.

Lemma all_chars_app f (a b : string) :
  all_chars f (a ++ b) = all_chars f a && all_chars f b.
Proof.
  induction a as [|c a IH]; simpl; [reflexivity|].
  rewrite IH. apply andb_assoc.
Qed.

Lemma all_chars_take f n : forall s,
  all_chars f s = true -> all_chars f (PyStr.take n s) = true.
Proof.
  induction n as [|n IH]; intros [|c s]; simpl; auto.
  intros H. apply andb_true_iff in H. destruct H as [Hc Hs].
  rewrite Hc. simpl. auto.
Qed.

Lemma all_chars_repeat f c n :
  f c = true -> all_chars f (Fmt.repeat_char c n) = true.
Proof. intros H. induction n; simpl; [reflexivity | rewrite H; auto]. Qed.

Lemma printable_left w s :
  printable_text s = true -> printable_text (Fmt.left w s) = true.
Proof.
  unfold printable_text, Fmt.left. intros H.
  rewrite all_chars_app, H. apply all_chars_repeat. reflexivity.
Qed.

Lemma printable_center w s :
  printable_text s = true -> printable_text (Fmt.center w s) = true.
Proof.
  unfold printable_text, Fmt.center. intros H.
  rewrite !all_chars_app, H, !all_chars_repeat; reflexivity.
Qed.

Lemma printable_row a b c d e :
  printable_text a = true -> printable_text b = true ->
  printable_text c = true -> printable_text d = true ->
  printable_text e = true ->
  printable_text (Fmt.row a b c d e) = true.
Proof.
  intros Ha Hb Hc Hd He.
  pose proof (printable_left 10 a Ha) as La.
  pose proof (printable_left 26 b Hb) as Lb.
  pose proof (printable_center 6 c Hc) as Lc.
  pose proof (printable_center 4 d Hd) as Ld.
  pose proof (printable_left 42 e He) as Le.
  unfold printable_text in *. unfold Fmt.row.
  rewrite !all_chars_app, La, Lb, Lc, Ld, Le. reflexivity.
Qed.

Lemma table_row_printable (c : CheckResult) :
  printable_text (id c) = true -> printable_text (name c) = true ->
  printable_text (PyStr.str_int (weight c)) = true ->
  printable_text (evidence c) = true ->
  printable_text (table_row c) = true.
Proof.
  intros Hi Hn Hw He. unfold table_row. apply printable_row.
  - apply all_chars_take. assumption.
  - apply all_chars_take. assumption.
  - assumption.
  - destruct (passed c); reflexivity.
  - apply all_chars_take.
    destruct (String.eqb (evidence c) ""); [reflexivity | assumption].
Qed.

Lemma shaped_printable mk c :
  (forall ev, printable_text (id (mk ev)) = true
              /\ printable_text (name (mk ev)) = true
              /\ printable_text (PyStr.str_int (weight (mk ev))) = true) ->
  shaped mk c ->
  printable_text (id c) = true /\ printable_text (name c) = true
  /\ printable_text (PyStr.str_int (weight c)) = true.
Proof. intros H [ev ->]. apply H. Qed.

Lemma run_results_printable fs cs :
  run_all_checks fs = Ok cs ->
  Forall (fun c => printable_text (id c) = true
                   /\ printable_text (name c) = true
                   /\ printable_text (PyStr.str_int (weight c)) = true) cs.
Proof.
  intros H. apply run_all_checks_shape in H.
  repeat match goal with
         | H : Forall2 _ (_ :: _) _ |- _ => inversion H; subst; clear H
         | H : Forall2 _ [] _ |- _ => inversion H; subst; clear H
         end.
  repeat (apply Forall_cons;
          [cbv beta;
           match goal with
           | H : shaped ?mk ?c |- printable_text (id ?c) = true /\ _ =>
               apply (shaped_printable mk c);
               [intros [e|]; repeat split; reflexivity | exact H]
           end|]).
  apply Forall_nil.
Qed.

(** X11. For the results of a run whose evidence is printable ASCII, the
    text output is 16 calls of [print], and each of the 14 that make the
    table (separators, header and the ten rows) prints one line of 104
    printable characters: identifier, name and evidence are cut to their
    columns, so long evidence never breaks the alignment. *)
Theorem output_text_table_aligned
    (fs : repo) (cs : list CheckResult) (sc : Z) (now : string) :
  run_all_checks fs = Ok cs ->
  Forall (fun c => printable_text (evidence c) = true) cs ->
  List.length (output_text (build_report fs cs sc now)) = 16%nat
  /\ Forall (fun e => exists l, e = Out l /\ String.length l = 104%nat
                                /\ printable_text l = true)
            (table_lines (build_report fs cs sc now)).
Proof.
  intros H He. pose proof (run_all_checks_weights _ _ H) as Hw.
  pose proof (run_results_printable _ _ H) as Hp.
  assert (Hl : List.length cs = 10%nat)
    by (rewrite <- (length_map weight), Hw; reflexivity).
  split.
  - unfold output_text. cbn [checks build_report].
    rewrite !length_app, length_map, Hl. reflexivity.
  - unfold table_lines, output_text. cbn [checks build_report skipn app].
    repeat (apply Forall_cons;
            [eexists; split; [reflexivity | split; reflexivity]|]).
    apply Forall_app. split.
    + apply Forall_forall. intros e Hin. apply in_map_iff in Hin.
      destruct Hin as (c & <- & Hc). eexists. split; [reflexivity|].
      rewrite Forall_forall in He, Hp.
      destruct (Hp c Hc) as (Pi & Pn & Pw). split.
      * apply table_rows_align, registry_weight_width.
        rewrite <- Hw. apply in_map. assumption.
      * apply table_row_printable; auto.
    + repeat constructor.
      eexists; split; [reflexivity | split; reflexivity].
Qed.

Lemma output_text_table_aligned_witness :
  exists cs,
    run_all_checks Samples.four_files = Ok cs
    /\ List.length
         (output_text (build_report Samples.four_files cs 45 Samples.noon))
       = 16%nat
    /\ Forall (fun e => exists l, e = Out l /\ String.length l = 104%nat
                                  /\ printable_text l = true)
         (table_lines (build_report Samples.four_files cs 45 Samples.noon)).
Proof.
  eexists. split; [vm_compute; reflexivity|].
  apply (output_text_table_aligned Samples.four_files).
  - vm_compute; reflexivity.
  - repeat constructor.
Defined.

(** ** First match wins *)

Lemma is_file_top fs n :
  root_x fs = true -> is_file fs [n] = Ok (regular_at fs n).
Proof.
  intros Hx. unfold is_file, regular_at, root_node. cbn [lookup].
  rewrite Hx. destruct (find_entry n (root_entries fs)) as [[?|? ? ?]|];
    reflexivity.
Qed.

(** X12. On a root that can be listed and searched and whose entries have
    ASCII names, the readme and the license checks report the first
    entry, in listing order, that is a regular file with a matching name;
    only the top level is looked at, and nothing below it can make them
    raise. *)
Theorem readme_and_license_first_match (fs : repo) :
  root_r fs = true -> root_x fs = true ->
  forallb ascii_text (map fst (root_entries fs)) = true ->
  let names := map fst (root_entries fs) in
  check_readme fs
  = Ok (readme_result
          (find (fun n => regular_at fs n && readme_name n) names))
  /\ check_license fs
     = Ok (license_result
             (find (fun n => regular_at fs n
                             && PyStr.startswith (PyStr.upper n) "LICENSE")
                   names)).
Proof.
  intros Hr Hx _ names.
  assert (Hl : iterdir fs [] = Ok names).
  { unfold iterdir, root_node. cbn [lookup]. rewrite Hr. reflexivity. }
  unfold check_readme, check_license. rewrite Hl. cbn [bind]. clear Hl.
  split.
  - induction names as [|n it IH]; cbn [check_readme_loop find];
      [reflexivity|].
    rewrite (is_file_top fs n Hx). cbn [bind].
    destruct (regular_at fs n); cbn [negb andb]; [|exact IH].
    destruct (readme_name n); [reflexivity | exact IH].
  - induction names as [|n it IH]; cbn [check_license_loop find];
      [reflexivity|].
    rewrite (is_file_top fs n Hx). cbn [bind].
    destruct (regular_at fs n && _); [reflexivity | exact IH].
Qed.

Lemma readme_and_license_first_match_witness :
  check_readme Samples.four_files = Ok (readme_result (Some "README.md"))
  /\ check_license Samples.four_files
     = Ok (license_result (Some "LICENSE")).
Proof.
  exact (readme_and_license_first_match Samples.four_files
           eq_refl eq_refl eq_refl).
Defined.

Lemma check_codeowners_loop_find fs l c :
  check_codeowners_loop fs l = Ok c ->
  c = codeowners_result (option_map str (find (is_regular fs) l)).
Proof.
  induction l as [|p l IH]; cbn [check_codeowners_loop find]; intros H.
  - apply Ok_inj in H. subst. reflexivity.
  - unfold is_regular at 1. bind_inv H. rewrite Ha.
    destruct a; [apply Ok_inj in H; subst; reflexivity | auto].
Qed.

Lemma check_docker_loop_find fs l c :
  check_docker_loop fs l = Ok c ->
  c = docker_result (find (fun n => is_regular fs [n]) l).
Proof.
  induction l as [|p l IH]; cbn [check_docker_loop find]; intros H.
  - apply Ok_inj in H. subst. reflexivity.
  - unfold is_regular at 1. bind_inv H. rewrite Ha.
    destruct a; [apply Ok_inj in H; subst; reflexivity | auto].
Qed.

(** X13. The codeowners, docker and security checks look at fixed places
    in a fixed order and report the first that is a regular file:
    [.github/CODEOWNERS] before [CODEOWNERS]; [Dockerfile] before
    [docker-compose.yml] before [docker-compose.yaml]; [SECURITY.md]
    before [.github/dependabot.yml]. *)
Theorem fixed_place_checks_precedence (fs : repo) :
  (forall c, check_codeowners fs = Ok c ->
     c = codeowners_result
           (option_map str
              (find (is_regular fs)
                 [[".github"; "CODEOWNERS"]; ["CODEOWNERS"]])))
  /\ (forall c, check_docker fs = Ok c ->
        c = docker_result
              (find (fun n => is_regular fs [n])
                 ["Dockerfile"; "docker-compose.yml";
                  "docker-compose.yaml"]))
  /\ (forall c, check_security fs = Ok c ->
        c = security_result
              (option_map str
                 (find (is_regular fs)
                    [["SECURITY.md"]; [".github"; "dependabot.yml"]]))).
Proof.
  split; [|split].
  - intros c H. apply check_codeowners_loop_find. exact H.
  - intros c H. apply check_docker_loop_find. exact H.
  - intros c H. unfold check_security in H. cbn [find]. unfold is_regular.
    bind_inv H. rewrite Ha. destruct a.
    + apply Ok_inj in H. subst. reflexivity.
    + bind_inv H. rewrite Ha0. destruct a;
        apply Ok_inj in H; subst; reflexivity.
Qed.

Lemma fixed_place_checks_precedence_witness :
  check_codeowners both_codeowners
  = Ok (codeowners_result (Some ".github/CODEOWNERS"))
  /\ codeowners_result (Some ".github/CODEOWNERS")
     = codeowners_result
         (option_map str
            (find (is_regular both_codeowners)
               [[".github"; "CODEOWNERS"]; ["CODEOWNERS"]])).
Proof.
  split; [reflexivity|].
  apply (proj1 (fixed_place_checks_precedence both_codeowners)).
  reflexivity.
Defined.

(** ** What makes the content-scanning checks pass *)

Lemma release_manifests_spec fs names m :
  release_manifests fs names = Ok m ->
  (m <> None <->
   exists n text,
     In n names /\ is_file fs [n] = Ok true /\ read fs [n] = Ok text
     /\ Re.search version_pattern (PyStr.take (KiB 4) text) = true).
Proof.
  revert m. induction names as [|n l IH]; cbn [release_manifests];
    intros m H.
  - apply Ok_inj in H. subst. split; [congruence|].
    intros (n & t & [] & _).
  - bind_inv H.
    assert (Hskip : release_manifests fs l = Ok m ->
                    (forall t, is_file fs [n] = Ok true ->
                               read fs [n] = Ok t ->
                               Re.search version_pattern
                                 (PyStr.take (KiB 4) t) = true -> False) ->
                    m <> None <->
                    exists n0 text,
                      In n0 (n :: l) /\ is_file fs [n0] = Ok true
                      /\ read fs [n0] = Ok text
                      /\ Re.search version_pattern
                           (PyStr.take (KiB 4) text) = true).
    { intros Hl Hno. rewrite (IH _ Hl). split.
      - intros (n0 & t & Hin & ?). exists n0, t. split; [right|]; auto.
      - intros (n0 & t & [<-|Hin] & Hf & Hr & Hs).
        + exfalso. eapply Hno; eauto.
        + exists n0, t. auto. }
    destruct a.
    + destruct (read fs [n]) as [t|e] eqn:R.
      * destruct (Re.search version_pattern (PyStr.take (KiB 4) t)) eqn:S.
        -- apply Ok_inj in H. subst. split; [intros _|congruence].
           exists n, t. split; [left; reflexivity|]. auto.
        -- apply Hskip; [assumption|]. intros t' _ Ht'. congruence.
      * apply Hskip; [assumption|]. intros t' _ Ht'. congruence.
    + apply Hskip; [assumption|]. intros t' Hf. congruence.
Qed.

Lemma release_csproj_spec fs it c :
  release_csproj fs it = Ok c ->
  (passed c = true <->
   exists p text,
     In p it /\ PyStr.lower (suffix p) = ".csproj"
     /\ is_file fs p = Ok true /\ read fs p = Ok text
     /\ Re.search version_csproj (PyStr.take (KiB 4) text) = true).
Proof.
  induction it as [|p l IH]; cbn [release_csproj]; intros H.
  - apply Ok_inj in H. subst. split; [discriminate|].
    intros (p & t & [] & _).
  - bind_inv H.
    assert (Hskip : release_csproj fs l = Ok c ->
                    (forall t, PyStr.lower (suffix p) = ".csproj" ->
                               is_file fs p = Ok true ->
                               read fs p = Ok t ->
                               Re.search version_csproj
                                 (PyStr.take (KiB 4) t) = true -> False) ->
                    passed c = true <->
                    exists p0 text,
                      In p0 (p :: l) /\ PyStr.lower (suffix p0) = ".csproj"
                      /\ is_file fs p0 = Ok true /\ read fs p0 = Ok text
                      /\ Re.search version_csproj
                           (PyStr.take (KiB 4) text) = true).
    { intros Hl Hno. rewrite (IH Hl). split.
      - intros (p0 & t & Hin & ?). exists p0, t. split; [right|]; auto.
      - intros (p0 & t & [<-|Hin] & Hs & Hf & Hr & Hm).
        + exfalso. eapply Hno; eauto.
        + exists p0, t. auto. }
    destruct (String.eqb (PyStr.lower (suffix p)) ".csproj") eqn:E.
    + apply String.eqb_eq in E. destruct a.
      * destruct (read fs p) as [t|e] eqn:R.
        -- destruct (Re.search version_csproj (PyStr.take (KiB 4) t))
             eqn:S.
           ++ apply Ok_inj in H. subst. split; [intros _|reflexivity].
              exists p, t. split; [left; reflexivity|]. auto.
           ++ apply Hskip; [assumption|]. intros t' _ _ Ht'. congruence.
        -- apply Hskip; [assumption|]. intros t' _ _ Ht'. congruence.
      * apply Hskip; [assumption|]. intros t' _ Hf. congruence.
    + apply Ok_inj in Ha. subst a.
      apply Hskip; [assumption|]. intros t' Hs.
      apply String.eqb_neq in E. contradiction.
Qed.

(** X14. In a tree of ASCII names and plain-text files, the release check
    passes exactly when [CHANGELOG.md] is a regular file at the top, or
    the first 4096 characters of a top-level [package.json] or
    [pyproject.toml] that can be read match the version pattern, or the
    first 4096 characters of a readable [.csproj] file listed by the
    walker match the [<Version>] pattern.  A manifest or project file
    that cannot be read is passed over. *)
Theorem release_passes_iff (fs : repo) (c : CheckResult) :
  ascii_names (root_node fs) = true ->
  plain_contents (root_node fs) = true ->
  check_release_hygiene fs = Ok c ->
  (passed c = true <->
   is_file fs ["CHANGELOG.md"] = Ok true
   \/ (exists n text,
         In n ["package.json"; "pyproject.toml"]
         /\ is_file fs [n] = Ok true /\ read fs [n] = Ok text
         /\ Re.search version_pattern (PyStr.take (KiB 4) text) = true)
   \/ (exists paths p text,
         walk_repo fs = Ok paths /\ In p paths
         /\ PyStr.lower (suffix p) = ".csproj" /\ read fs p = Ok text
         /\ Re.search version_csproj (PyStr.take (KiB 4) text) = true)).
Proof.
  intros _ _ H. unfold check_release_hygiene in H.
  apply bind_ok in H. destruct H as (cl & Hcl & H).
  destruct cl.
  { apply Ok_inj in H. subst. split; [auto | reflexivity]. }
  apply bind_ok in H. destruct H as (m & Hm & H).
  pose proof (release_manifests_spec _ _ _ Hm) as Sm.
  destruct m as [ev|].
  { apply Ok_inj in H. subst. split; [intros _|reflexivity].
    right. left. apply Sm. discriminate. }
  apply bind_ok in H. destruct H as (paths & Hw & H).
  pose proof (release_csproj_spec _ _ _ H) as Sc.
  destruct (walk_repo_returns fs) as (paths' & Hw' & Hs).
  rewrite Hw in Hw'. apply Ok_inj in Hw'. subst paths'.
  rewrite Sc. split.
  - intros (p & t & Hin & Hx & _ & Hr & Hmatch).
    right. right. exists paths, p, t. auto.
  - intros [Hc|[Hman|(paths' & p & t & Hw' & Hin & Hx & Hr & Hmatch)]].
    + congruence.
    + apply Sm in Hman. congruence.
    + rewrite Hw in Hw'. apply Ok_inj in Hw'. subst paths'.
      exists p, t. destruct (Hs p Hin) as (_ & Hf & _). auto.
Qed.

Lemma release_passes_iff_witness :
  passed (release_result (Some "package.json (version)")) = true <->
  is_file Samples.package_only ["CHANGELOG.md"] = Ok true
  \/ (exists n text,
        In n ["package.json"; "pyproject.toml"]
        /\ is_file Samples.package_only [n] = Ok true
        /\ read Samples.package_only [n] = Ok text
        /\ Re.search version_pattern (PyStr.take (KiB 4) text) = true)
  \/ (exists paths p text,
        walk_repo Samples.package_only = Ok paths /\ In p paths
        /\ PyStr.lower (suffix p) = ".csproj"
        /\ read Samples.package_only p = Ok text
        /\ Re.search version_csproj (PyStr.take (KiB 4) text) = true).
Proof.
  apply (release_passes_iff Samples.package_only); vm_compute; reflexivity.
Defined.

Lemma check_linter_loop_spec fs it c :
  check_linter_loop fs it = Ok c ->
  (passed c = true <-> exists p, In p it /\ linter_hit fs p).
Proof.
  induction it as [|p l IH]; cbn [check_linter_loop]; intros H.
  - apply Ok_inj in H. subst. split; [discriminate|].
    intros (p & [] & _).
  - assert (Hhit : linter_hit fs p -> forall c',
               Ok c' = Ok c -> passed c' = true ->
               passed c = true <->
               exists p0, In p0 (p :: l) /\ linter_hit fs p0).
    { intros Hp c' E P. apply Ok_inj in E. subst c'.
      split; [intros _|auto]. exists p. split; [left; reflexivity|auto]. }
    assert (Hskip : ~ linter_hit fs p ->
               check_linter_loop fs l = Ok c ->
               passed c = true <->
               exists p0, In p0 (p :: l) /\ linter_hit fs p0).
    { intros Hno Hl. rewrite (IH Hl). split.
      - intros (p0 & Hin & ?). exists p0. split; [right|]; auto.
      - intros (p0 & [<-|Hin] & Hp); [contradiction|]. exists p0. auto. }
    unfold linter_hit in Hhit, Hskip. cbv zeta in Hhit, Hskip.
    destruct (String.eqb (PyStr.lower (basename p)) ".editorconfig") eqn:E1.
    { apply String.eqb_eq in E1. eapply Hhit; eauto. }
    destruct (PyStr.startswith (PyStr.lower (basename p)) ".eslintrc")
      eqn:E2.
    { eapply Hhit; eauto. }
    destruct (String.eqb (PyStr.lower (basename p)) "ruff.toml") eqn:E3.
    { apply String.eqb_eq in E3. eapply Hhit; eauto. }
    destruct (String.eqb (PyStr.lower (basename p)) "stylecop.json") eqn:E4.
    { apply String.eqb_eq in E4. eapply Hhit; eauto 6. }
    apply String.eqb_neq in E1, E3, E4.
    destruct (String.eqb (PyStr.lower (basename p)) "pyproject.toml")
      eqn:E5.
    + apply String.eqb_eq in E5.
      destruct (read fs p) as [t|e] eqn:R.
      * destruct (linter_words (PyStr.take (KiB 8) t)) eqn:W.
        -- eapply Hhit; eauto. do 4 right. split; [assumption|].
           exists t. auto.
        -- apply Hskip; [|assumption].
           intros [?|[?|[?|[?|(_ & t' & Ht' & Hw')]]]];
             try congruence.
        * apply Hskip; [|assumption].
          intros [?|[?|[?|[?|(_ & t' & Ht' & Hw')]]]];
            try congruence.
    + apply String.eqb_neq in E5. apply Hskip; [|assumption].
      intros [?|[?|[?|[?|(? & _)]]]]; congruence.
Qed.

(** X15. In a tree of ASCII names and plain-text files, the linter check
    passes exactly when the walker lists a file the check accepts; names
    are compared in lower case, at any depth, and a [pyproject.toml] that
    cannot be read is passed over. *)
Theorem linter_passes_iff (fs : repo) (c : CheckResult) :
  ascii_names (root_node fs) = true ->
  plain_contents (root_node fs) = true ->
  check_linter fs = Ok c ->
  exists paths,
    walk_repo fs = Ok paths
    /\ (passed c = true <-> exists p, In p paths /\ linter_hit fs p).
Proof.
  intros _ _ H. unfold check_linter in H.
  apply bind_ok in H. destruct H as (paths & Hw & H).
  exists paths. split; [assumption|].
  apply check_linter_loop_spec. assumption.
Qed.

Lemma linter_passes_iff_witness :
  exists paths,
    walk_repo nested_eslintrc = Ok paths
    /\ (passed (linter_result (Some "web/.ESLintrc.JSON")) = true <->
        exists p, In p paths /\ linter_hit nested_eslintrc p).
Proof.
  apply (linter_passes_iff nested_eslintrc); vm_compute; reflexivity.
Defined.

Lemma observability_body_spec fs p :
  (exists ev, observability_body fs p = Ok (Some ev))
  <-> observability_hit fs p.
Proof.
  unfold observability_body, observability_hit, mentions_needle.
  rewrite <- (mem_In (PyStr.lower (suffix p))), <- !mem_In.
  destruct (PyStr.mem (PyStr.lower (suffix p)) config_suffixes);
    destruct (PyStr.mem "config" p); destruct (PyStr.mem "conf" p);
    destruct (PyStr.mem "workflows" p);
    destruct (read fs p) as [t|e]; cbn [bind orb];
    try destruct (PyStr.contains needle
                    (PyStr.lower (PyStr.take MAX_READ_BYTES t))) eqn:N;
    cbn [bind orb]; try rewrite N; cbn [bind];
    (split;
     [ intros [ev Hev]; try discriminate;
       (split; [tauto | eexists; split; [reflexivity | assumption]])
     | intros [Hc (t' & Ht' & Hn)]; try discriminate;
       try (apply Ok_inj in Ht'; subst t'; congruence);
       try (eexists; reflexivity);
       try (exfalso; intuition discriminate) ]).
Qed.

Lemma check_observability_loop_spec fs it c :
  check_observability_loop fs it = Ok c ->
  (passed c = true <-> exists p, In p it /\ observability_hit fs p).
Proof.
  induction it as [|p l IH]; cbn [check_observability_loop]; intros H.
  - apply Ok_inj in H. subst. split; [discriminate|].
    intros (p & [] & _).
  - pose proof (observability_body_spec fs p) as B.
    assert (Hskip : ~ observability_hit fs p ->
               check_observability_loop fs l = Ok c ->
               passed c = true <->
               exists p0, In p0 (p :: l) /\ observability_hit fs p0).
    { intros Hno Hl. rewrite (IH Hl). split.
      - intros (p0 & Hin & ?). exists p0. split; [right|]; auto.
      - intros (p0 & [<-|Hin] & Hp); [contradiction|]. exists p0. auto. }
    destruct (observability_body fs p) as [[ev|]|e].
    + apply Ok_inj in H. subst. split; [intros _|reflexivity].
      exists p. split; [left; reflexivity|]. apply B. eexists; reflexivity.
    + apply Hskip; [|assumption]. intros Hp. apply B in Hp.
      destruct Hp; discriminate.
    + apply Hskip; [|assumption]. intros Hp. apply B in Hp.
      destruct Hp; discriminate.
Qed.

(** X16. The observability check passes exactly when the walker lists a
    file in which the check finds the needle; only the first 65536 bytes
    of a file count, the comparison ignores case, and a file that cannot
    be read is passed over. *)
Theorem observability_passes_iff (fs : repo) (c : CheckResult) :
  check_observability fs = Ok c ->
  exists paths,
    walk_repo fs = Ok paths
    /\ (passed c = true <-> exists p, In p paths /\ observability_hit fs p).
Proof.
  intros H. unfold check_observability in H.
  apply bind_ok in H. destruct H as (paths & Hw & H).
  exists paths. split; [assumption|].
  apply check_observability_loop_spec. assumption.
Qed.

Lemma observability_passes_iff_witness :
  exists paths,
    walk_repo otel_in_conf = Ok paths
    /\ (passed (observability_result (Some "conf/collector")) = true <->
        exists p, In p paths /\ observability_hit otel_in_conf p).
Proof.
  apply (observability_passes_iff otel_in_conf). vm_compute; reflexivity.
Defined.

(** ** Evidence *)

Lemma well_named_Dir r x es :
  well_named (Dir r x es) = true <->
  Forall (fun e => fst e <> "" /\ well_named (snd e) = true) es.
Proof.
  cbn [well_named]. induction es as [|[c m] es IH].
  - split; [constructor | reflexivity].
  - rewrite !andb_true_iff, IH, negb_true_iff, String.eqb_neq. split.
    + intros [[? ?] ?]. constructor; [split|]; assumption.
    + intros H. inversion H as [|? ? [? ?] ?]; subst. auto.
Qed.

Lemma iterate_directories_names (n : node) : forall ok prefix d names,
  well_named n = true ->
  In (d, names) (iterate_directories ok prefix n) ->
  Forall (fun c => c <> "") names.
Proof.
  induction n as [content|r x es IH] using node_induction;
    intros ok prefix d names Hn Hin.
  - destruct Hin.
  - rewrite iterate_directories_Dir in Hin.
    apply well_named_Dir in Hn.
    destruct (ok && r); [|destruct Hin].
    destruct Hin as [E|Hin].
    + injection E as <- <-. apply Forall_forall. intros c Hc.
      apply in_map_iff in Hc. destruct Hc as (e & <- & He).
      rewrite Forall_forall in Hn. apply (Hn e He).
    + unfold children_dirs in Hin. apply in_flat_map in Hin.
      destruct Hin as (e & He & Hin).
      rewrite Forall_forall in IH, Hn.
      exact (IH e He _ _ _ _ (proj2 (Hn e He)) Hin).
Qed.

Lemma concat_nonempty (c : string) (l : list string) :
  In c l -> c <> "" -> String.concat "/" l <> "".
Proof.
  destruct l as [|x [|y l]]; cbn [String.concat].
  - intros [].
  - intros [<-|[]] H. assumption.
  - intros _ _. destruct x; discriminate.
Qed.

Lemma rglob_str_nonempty fs p :
  well_named (root_node fs) = true -> In p (rglob fs) -> str p <> "".
Proof.
  intros Hn Hin. unfold rglob in Hin. apply in_flat_map in Hin.
  destruct Hin as ([d names] & Hd & Hp). cbn [fst snd] in Hp.
  apply in_map_iff in Hp. destruct Hp as (c & <- & Hc).
  pose proof (iterate_directories_names _ _ _ _ _ Hn Hd) as Hall.
  rewrite Forall_forall in Hall.
  apply (concat_nonempty c); [|exact (Hall c Hc)].
  apply in_or_app. right. left. reflexivity.
Qed.

Lemma smap_nonempty f s : s <> "" -> PyStr.smap f s <> "".
Proof. destruct s; [congruence | discriminate]. Qed.

Lemma append_nonempty_r (a b : string) : b <> "" -> (a ++ b)%string <> "".
Proof. destruct a; simpl; [auto | discriminate]. Qed.

Section Evidence.

Variable fs : repo.
Hypothesis Hn : well_named (root_node fs) = true.

Lemma walked_str_nonempty paths p :
  walk_repo fs = Ok paths -> In p paths -> str p <> "".
Proof.
  intros Hw Hin. destruct (walk_repo_returns fs) as (paths' & Hw' & Hs).
  rewrite Hw in Hw'. apply Ok_inj in Hw'. subst paths'.
  apply (rglob_str_nonempty fs); [assumption|]. apply (Hs p Hin).
Qed.

Lemma readme_evidence c :
  check_readme fs = Ok c -> passed c = true -> evidence c <> "".
Proof.
  unfold check_readme. intros H. bind_inv H. clear Ha.
  induction a as [|n it IH]; cbn [check_readme_loop] in H; intros P.
  - apply Ok_inj in H. subst. discriminate.
  - bind_inv H. destruct a; cbn [negb] in H; auto.
    destruct (readme_name n) eqn:R; auto.
    apply Ok_inj in H. subst. cbn. intros ->. discriminate R.
Qed.

Lemma license_evidence c :
  check_license fs = Ok c -> passed c = true -> evidence c <> "".
Proof.
  unfold check_license. intros H. bind_inv H. clear Ha.
  induction a as [|n it IH]; cbn [check_license_loop] in H; intros P.
  - apply Ok_inj in H. subst. discriminate.
  - bind_inv H.
    destruct (a && PyStr.startswith (PyStr.upper n) "LICENSE") eqn:R; auto.
    apply Ok_inj in H. subst. cbn. intros ->.
    apply andb_true_iff in R. destruct R as [_ R]. discriminate R.
Qed.

Lemma codeowners_evidence c :
  check_codeowners fs = Ok c -> passed c = true -> evidence c <> "".
Proof.
  intros H. apply check_codeowners_loop_find in H. subst c. cbn [find].
  destruct (is_regular fs [".github"; "CODEOWNERS"]);
    [discriminate|].
  destruct (is_regular fs ["CODEOWNERS"]); discriminate.
Qed.

Lemma docker_evidence c :
  check_docker fs = Ok c -> passed c = true -> evidence c <> "".
Proof.
  intros H. apply check_docker_loop_find in H. subst c. cbn [find].
  repeat match goal with
         | |- context [is_regular fs ?p] =>
             destruct (is_regular fs p); [discriminate|]
         end.
  discriminate.
Qed.

Lemma security_evidence c :
  check_security fs = Ok c -> passed c = true -> evidence c <> "".
Proof.
  unfold check_security. intros H. bind_inv H. destruct a.
  - apply Ok_inj in H. subst. discriminate.
  - bind_inv H. destruct a; apply Ok_inj in H; subst; discriminate.
Qed.

Lemma ci_evidence c :
  check_ci fs = Ok c -> passed c = true -> evidence c <> "".
Proof.
  unfold check_ci. intros H. bind_inv H. bind_inv H.
  destruct a0 as [f|].
  - apply Ok_inj in H. subst c. intros _. cbn.
    assert (Hf : exists n, f = workflows ++ [n]).
    { destruct a.
      - bind_inv Ha0. apply Ok_inj in Ha0. apply find_some in Ha0.
        destruct Ha0 as [Hin _]. apply in_map_iff in Hin.
        destruct Hin as (n & <- & _). eauto.
      - discriminate. }
    destruct Hf as [n ->]. discriminate.
  - bind_inv H. destruct a0; apply Ok_inj in H; subst; discriminate.
Qed.

Lemma tests_evidence c :
  check_tests fs = Ok c -> passed c = true -> evidence c <> "".
Proof.
  unfold check_tests. intros H.
  apply bind_ok in H. destruct H as (paths & Hw & H).
  do 2 bind_inv H. destruct a0.
  - apply Ok_inj in H. subst. discriminate.
  - destruct (find tests_first paths) as [p|] eqn:F1.
    + apply Ok_inj in H. subst. intros _. cbn.
      apply find_some in F1. eapply walked_str_nonempty; eauto. tauto.
    + destruct (find (tests_second fs) paths) as [p|] eqn:F2.
      * apply Ok_inj in H. subst. intros _. cbn.
        apply find_some in F2. eapply walked_str_nonempty; eauto. tauto.
      * apply Ok_inj in H. subst. discriminate.
Qed.

Lemma linter_loop_evidence it c :
  (forall p, In p it -> str p <> "") ->
  check_linter_loop fs it = Ok c -> passed c = true -> evidence c <> "".
Proof.
  induction it as [|p l IH]; cbn [check_linter_loop]; intros Hs H.
  - apply Ok_inj in H. subst. discriminate.
  - assert (Hp : PyStr.replace_char "\" "/" (str p) <> "")
      by (apply smap_nonempty, Hs; left; reflexivity).
    assert (Hl : forall q, In q l -> str q <> "")
      by (intros q Hq; apply Hs; right; assumption).
    repeat match type of H with
           | (if ?b then _ else _) = _ =>
               destruct b;
               [apply Ok_inj in H; subst; intros _; exact Hp|]
           end.
    destruct (String.eqb _ _); auto.
    destruct (read fs p); auto.
    destruct (linter_words _); auto.
    apply Ok_inj in H; subst; intros _; exact Hp.
Qed.

Lemma linter_evidence c :
  check_linter fs = Ok c -> passed c = true -> evidence c <> "".
Proof.
  unfold check_linter. intros H.
  apply bind_ok in H. destruct H as (paths & Hw & H).
  eapply linter_loop_evidence; eauto.
  intros p Hp. eapply walked_str_nonempty; eauto.
Qed.

Lemma observability_body_evidence p ev :
  observability_body fs p = Ok (Some ev) -> ev = str p.
Proof.
  unfold observability_body. intros H. bind_inv H. destruct a.
  - apply Ok_inj in H. congruence.
  - bind_inv H. destruct a; apply Ok_inj in H; congruence.
Qed.

Lemma observability_loop_evidence it c :
  (forall p, In p it -> str p <> "") ->
  check_observability_loop fs it = Ok c ->
  passed c = true -> evidence c <> "".
Proof.
  induction it as [|p l IH]; cbn [check_observability_loop]; intros Hs H.
  - apply Ok_inj in H. subst. discriminate.
  - assert (Hl : forall q, In q l -> str q <> "")
      by (intros q Hq; apply Hs; right; assumption).
    destruct (observability_body fs p) as [[ev|]|e] eqn:B; auto.
    apply observability_body_evidence in B. subst ev.
    apply Ok_inj in H. subst. intros _. cbn. apply Hs. left; reflexivity.
Qed.

Lemma observability_evidence c :
  check_observability fs = Ok c -> passed c = true -> evidence c <> "".
Proof.
  unfold check_observability. intros H.
  apply bind_ok in H. destruct H as (paths & Hw & H).
  eapply observability_loop_evidence; eauto.
  intros p Hp. eapply walked_str_nonempty; eauto.
Qed.

Lemma release_manifests_evidence names ev :
  release_manifests fs names = Ok (Some ev) -> ev <> "".
Proof.
  induction names as [|n l IH]; cbn [release_manifests]; intros H.
  - discriminate.
  - bind_inv H. destruct a; auto.
    destruct (read fs [n]); auto.
    destruct (Re.search _ _); auto.
    apply Ok_inj in H. injection H as <-.
    apply append_nonempty_r. discriminate.
Qed.

Lemma release_csproj_evidence it c :
  (forall p, In p it -> str p <> "") ->
  release_csproj fs it = Ok c -> passed c = true -> evidence c <> "".
Proof.
  induction it as [|p l IH]; cbn [release_csproj]; intros Hs H.
  - apply Ok_inj in H. subst. discriminate.
  - assert (Hl : forall q, In q l -> str q <> "")
      by (intros q Hq; apply Hs; right; assumption).
    bind_inv H. destruct a; auto.
    destruct (read fs p); auto.
    destruct (Re.search _ _); auto.
    apply Ok_inj in H. subst. intros _. cbn. apply Hs. left; reflexivity.
Qed.

Lemma release_evidence c :
  check_release_hygiene fs = Ok c -> passed c = true -> evidence c <> "".
Proof.
  unfold check_release_hygiene. intros H. bind_inv H. destruct a.
  - apply Ok_inj in H. subst. discriminate.
  - apply bind_ok in H. destruct H as (m & Hm & H). destruct m as [ev|].
    + apply Ok_inj in H. subst. intros _. cbn.
      eapply release_manifests_evidence; eauto.
    + apply bind_ok in H. destruct H as (paths & Hw & H).
      eapply release_csproj_evidence; eauto.
      intros p Hp. eapply walked_str_nonempty; eauto.
Qed.

End Evidence.

(** X17. In a tree where no entry has the empty name, every result of a
    run has evidence exactly when it passed: a passed check names the
    file or the text that justified it, a failed check has the empty
    string. *)
Theorem evidence_exactly_when_passed (fs : repo) (cs : list CheckResult) :
  well_named (root_node fs) = true ->
  run_all_checks fs = Ok cs ->
  Forall (fun c => (passed c = true -> evidence c <> "")
                   /\ (passed c = false -> evidence c = "")) cs.
Proof.
  intros Hn H.
  pose proof (run_all_checks_shape _ _ H) as Hs.
  apply run_each_Forall2 in H. unfold runners in H.
  repeat match goal with
         | H : Forall2 _ (_ :: _) _ |- _ => inversion H; subst; clear H
         | H : Forall2 _ [] _ |- _ => inversion H; subst; clear H
         end.
  repeat constructor;
    try (match goal with
         | H : shaped ?mk ?c |- passed ?c = false -> _ =>
             exact (shaped_evidence _ _ _ _ H)
         end);
    eauto using readme_evidence, license_evidence, codeowners_evidence,
      ci_evidence, tests_evidence, linter_evidence, docker_evidence,
      security_evidence, observability_evidence, release_evidence.
Qed.

Lemma evidence_exactly_when_passed_witness :
  exists cs,
    run_all_checks Samples.four_files = Ok cs
    /\ Forall (fun c => (passed c = true -> evidence c <> "")
                        /\ (passed c = false -> evidence c = "")) cs.
Proof.
  eexists. split; [vm_compute; reflexivity|].
  apply (evidence_exactly_when_passed Samples.four_files);
    vm_compute; reflexivity.
Defined.

(** ** The sample library *)

Lemma append_cancel_l (a b c : string) :
  (a ++ b = a ++ c)%string -> b = c.
Proof. induction a as [|x a IH]; simpl; intros H; [|injection H]; auto. Qed.

Lemma append_cancel_last (b c : string) (x : ascii) :
  (b ++ String x "" = c ++ String x "")%string -> b = c.
Proof.
  revert c. induction b as [|y b IH]; intros [|z c] H; simpl in H.
  - reflexivity.
  - injection H as _ H. destruct c; discriminate.
  - injection H as _ H. destruct b; discriminate.
  - injection H as -> H. f_equal. auto.
Qed.

(** X18. [greet] wraps the name between [Hello, ] and [!] and adds eight
    characters, so two names with the same greeting are the same name;
    the empty name gives [Hello, !]. *)
Theorem greet_injective (n m : string) :
  String.length (Calc.greet n) = (String.length n + 8)%nat
  /\ PyStr.startswith (Calc.greet n) "Hello, " = true
  /\ (Calc.greet n = Calc.greet m -> n = m).
Proof.
  unfold Calc.greet. split; [|split].
  - rewrite !string_length_app. simpl. lia.
  - apply prefix_refl_app.
  - intros H. apply append_cancel_l in H.
    apply append_cancel_last in H. assumption.
Qed.

Lemma greet_injective_witness :
  String.length (Calc.greet "World") = (String.length "World" + 8)%nat
  /\ PyStr.startswith (Calc.greet "World") "Hello, " = true
  /\ (Calc.greet "World" = Calc.greet "World" -> "World" = "World").
Proof. exact (greet_injective "World" "World"). Defined.

Lemma get_set (s : Store.t) (k v k' : string) :
  Store.get (Store.set s k v) k'
  = if String.eqb k' k then Some v else Store.get s k'.
Proof.
  induction s as [|[a b] s IH]; cbn [Store.set Store.get].
  - destruct (String.eqb_spec k k'), (String.eqb_spec k' k);
      congruence.
  - destruct (String.eqb_spec a k); cbn [Store.get].
    + subst a.
      destruct (String.eqb_spec k k'), (String.eqb_spec k' k);
        congruence.
    + rewrite IH.
      destruct (String.eqb_spec a k'), (String.eqb_spec k' k);
        congruence.
Qed.

(** X19. Reading after writing: [get] after [set] gives the value just
    written for that key and what was there before for every other key;
    a key that was never set reads as [None], and this is the only way to
    read [None]. *)
Theorem store_get_after_set (s : Store.t) (k v k' : string) :
  Store.get (Store.set s k v) k'
  = (if String.eqb k' k then Some v else Store.get s k')
  /\ Store.get Store.init k' = None
  /\ (Store.get s k' = None <-> ~ In k' (Store.keys s)).
Proof.
  split; [apply get_set|split; [reflexivity|]].
  induction s as [|[a b] s IH]; cbn [Store.get Store.keys map fst In].
  - tauto.
  - destruct (String.eqb a k') eqn:E.
    + apply String.eqb_eq in E. split; [discriminate | tauto].
    + apply String.eqb_neq in E. unfold Store.keys in IH.
      rewrite IH. tauto.
Qed.

Lemma keys_set (s : Store.t) (k v : string) :
  Store.keys (Store.set s k v)
  = if PyStr.mem k (Store.keys s) then Store.keys s
    else Store.keys s ++ [k].
Proof.
  unfold Store.keys, PyStr.mem.
  induction s as [|[a b] s IH]; cbn [Store.set map fst existsb app].
  - reflexivity.
  - destruct (String.eqb_spec a k), (String.eqb_spec k a);
      cbn [map fst orb]; try congruence.
    rewrite IH. destruct (existsb (String.eqb k) (map fst s)); reflexivity.
Qed.

(** X20. Writing a key that is present keeps the order of the keys, writing
    a new key puts it last; so a store built from a fresh one by any
    sequence of writes never lists a key twice, and lists exactly the keys
    that were written. *)
Theorem store_keys_insertion_order
    (s : Store.t) (k v : string) (ops : list (string * string)) :
  Store.keys (Store.set s k v)
  = (if PyStr.mem k (Store.keys s) then Store.keys s
     else Store.keys s ++ [k])
  /\ NoDup (Store.keys (Store.after ops))
  /\ (forall key, In key (Store.keys (Store.after ops))
                  <-> In key (map fst ops)).
Proof.
  split; [apply keys_set|].
  unfold Store.after.
  assert (G : forall s0, NoDup (Store.keys s0) ->
            NoDup (Store.keys
                     (fold_left (fun s kv => Store.set s (fst kv) (snd kv))
                                ops s0))
            /\ forall key,
                 In key (Store.keys
                           (fold_left
                              (fun s kv => Store.set s (fst kv) (snd kv))
                              ops s0))
                 <-> In key (Store.keys s0) \/ In key (map fst ops)).
  { induction ops as [|[a b] ops IH]; intros s0 Hs0; cbn [fold_left map].
    - split; [assumption|]. intros key. cbn [In]. tauto.
    - cbn [fst snd].
      assert (Hs1 : NoDup (Store.keys (Store.set s0 a b))).
      { rewrite keys_set. destruct (PyStr.mem a (Store.keys s0)) eqn:M;
          [assumption|].
        apply NoDup_app; [assumption | repeat constructor; intros [] |].
        intros x Hx [E|[]]. subst x.
        assert (PyStr.mem a (Store.keys s0) = true)
          by (apply mem_In; assumption).
        congruence. }
      destruct (IH _ Hs1) as [N I]. split; [assumption|].
      intros key. rewrite I, keys_set.
      destruct (PyStr.mem a (Store.keys s0)) eqn:M; cbn [In].
      + apply mem_In in M. split; [tauto|].
        intros [?|[<-|?]]; tauto.
      + rewrite in_app_iff. cbn [In]. tauto. }
  destruct (G Store.init (NoDup_nil _)) as [N I].
  split; [assumption|]. intros key. rewrite I. cbn. tauto.
Qed.

Lemma find_app_first {A : Type} (f : A -> bool) (l l' : list A) :
  find f (l ++ l')
  = match find f l with
    | Some a => Some a
    | None => find f l'
    end.
Proof.
  induction l as [|a l IH]; cbn [app find]; [reflexivity|].
  destruct (f a); [reflexivity | exact IH].
Qed.

(** X21. The last write wins: after any sequence of writes on a fresh
    store, [get] gives the value of the last write to the key, and [None]
    when the key was never written. *)
Theorem store_last_write_wins (ops : list (string * string)) (k : string) :
  Store.get (Store.after ops) k
  = option_map snd
      (find (fun kv => String.eqb (fst kv) k) (rev ops)).
Proof.
  unfold Store.after.
  assert (G : forall s0,
            Store.get (fold_left
                         (fun s kv => Store.set s (fst kv) (snd kv))
                         ops s0) k
            = match find (fun kv => String.eqb (fst kv) k) (rev ops) with
              | Some kv => Some (snd kv)
              | None => Store.get s0 k
              end).
  { induction ops as [|[a b] ops IH]; intros s0; cbn [fold_left rev].
    - reflexivity.
    - rewrite IH. cbn [fst snd].
      rewrite find_app_first.
      destruct (find (fun kv => String.eqb (fst kv) k) (rev ops));
        [reflexivity|].
      cbn [find fst snd].
      rewrite get_set.
      destruct (String.eqb_spec a k), (String.eqb_spec k a);
        cbn [snd]; congruence. }
  rewrite G. destruct (find _ (rev ops)); reflexivity.
Qed.

(** ** The matcher and the two patterns *)

Lemma append_empty (s t : string) :
  (s ++ t)%string = "" -> s = "" /\ t = "".
Proof. destruct s; simpl; [auto | discriminate]. Qed.

Lemma append_nil_r (s : string) : (s ++ "")%string = s.
Proof. induction s; simpl; congruence. Qed.

Lemma lang_Nul s : ~ lang Re.Nul s.
Proof. intros H. inversion H. Qed.

Lemma lang_Cat_inv a b s :
  lang (Re.Cat a b) s ->
  exists s1 s2, s = (s1 ++ s2)%string /\ lang a s1 /\ lang b s2.
Proof. intros H. inversion H; subst. eauto. Qed.

Lemma lang_Alt_inv a b s : lang (Re.Alt a b) s -> lang a s \/ lang b s.
Proof. intros H. inversion H; subst; auto. Qed.

Lemma lang_Cls_inv f s :
  lang (Re.Cls f) s -> exists c, s = String c "" /\ f c = true.
Proof. intros H. inversion H; subst. eauto. Qed.

Lemma lang_Eps_inv s : lang Re.Eps s -> s = "".
Proof. intros H. inversion H; reflexivity. Qed.

Lemma nullable_lang r : Re.nullable r = true <-> lang r "".
Proof.
  induction r as [| |f|a IHa b IHb|a IHa b IHb|a IHa]; cbn [Re.nullable].
  - split; [discriminate | intros H; inversion H].
  - split; [constructor | reflexivity].
  - split; [discriminate | intros H; inversion H].
  - rewrite andb_true_iff, IHa, IHb. split.
    + intros [Ha Hb]. exact (lang_Cat a b "" "" Ha Hb).
    + intros H. apply lang_Cat_inv in H.
      destruct H as (s1 & s2 & E & H1 & H2). symmetry in E.
      apply append_empty in E. destruct E; subst. auto.
  - rewrite orb_true_iff, IHa, IHb. split.
    + intros [H|H]; [apply lang_AltL | apply lang_AltR]; assumption.
    + apply lang_Alt_inv.
  - split; [constructor | reflexivity].
Qed.

Lemma lang_cat a b s : lang (Re.cat a b) s <-> lang (Re.Cat a b) s.
Proof.
  assert (HN : forall x, lang (Re.Cat Re.Nul x) s <-> lang Re.Nul s).
  { intros x. split; intros H; [|inversion H].
    apply lang_Cat_inv in H. destruct H as (? & ? & _ & H & _).
    inversion H. }
  assert (NH : forall x, lang (Re.Cat x Re.Nul) s <-> lang Re.Nul s).
  { intros x. split; intros H; [|inversion H].
    apply lang_Cat_inv in H. destruct H as (? & ? & _ & _ & H).
    inversion H. }
  assert (HE : forall x, lang (Re.Cat Re.Eps x) s <-> lang x s).
  { intros x. split; intros H.
    - apply lang_Cat_inv in H. destruct H as (s1 & s2 & -> & H1 & H2).
      apply lang_Eps_inv in H1. subst. exact H2.
    - exact (lang_Cat Re.Eps x "" s lang_Eps H). }
  destruct a, b; cbn [Re.cat];
    try reflexivity; try (symmetry; apply HN); try (symmetry; apply NH);
    try (symmetry; apply HE).
Qed.

Lemma lang_alt a b s : lang (Re.alt a b) s <-> lang (Re.Alt a b) s.
Proof.
  assert (HN : forall x, lang (Re.Alt Re.Nul x) s <-> lang x s).
  { intros x. split; intros H; [|apply lang_AltR; assumption].
    apply lang_Alt_inv in H. destruct H as [H|H]; [inversion H | exact H]. }
  assert (NH : forall x, lang (Re.Alt x Re.Nul) s <-> lang x s).
  { intros x. split; intros H; [|apply lang_AltL; assumption].
    apply lang_Alt_inv in H. destruct H as [H|H]; [exact H | inversion H]. }
  destruct a, b; cbn [Re.alt];
    try reflexivity; try (symmetry; apply HN); try (symmetry; apply NH).
Qed.

Lemma lang_Star_cons_inv a c s :
  lang (Re.Star a) (String c s) ->
  exists s1 s2,
    s = (s1 ++ s2)%string /\ lang a (String c s1) /\ lang (Re.Star a) s2.
Proof.
  intros H. remember (Re.Star a) as r eqn:Er.
  remember (String c s) as w eqn:Ew. revert s Ew.
  induction H as [|f d Hd|x y u t Hu IHu Ht IHt|x y u Hu IHu|x y u Hu IHu
                  |x|x u t Hu IHu Ht IHt];
    intros s Ew; try discriminate Er; try discriminate Ew.
  injection Er as ->. destruct u as [|d u].
  - simpl in Ew. apply IHt; auto.
  - simpl in Ew. injection Ew as <- <-. exists u, t. auto.
Qed.

Lemma deriv_lang r : forall c s,
  lang (Re.deriv c r) s <-> lang r (String c s).
Proof.
  induction r as [| |f|a IHa b IHb|a IHa b IHb|a IHa]; intros c s;
    cbn [Re.deriv].
  - split; intros H; inversion H.
  - split; intros H; inversion H.
  - destruct (f c) eqn:F; split; intros H.
    + apply lang_Eps_inv in H. subst. constructor. assumption.
    + apply lang_Cls_inv in H. destruct H as (d & E & _).
      injection E as _ ->. constructor.
    + inversion H.
    + apply lang_Cls_inv in H. destruct H as (d & E & Hd).
      injection E as -> _. congruence.
  - assert (Hfirst : lang (Re.cat (Re.deriv c a) b) s <->
                     exists s1 s2, s = (s1 ++ s2)%string
                                   /\ lang a (String c s1) /\ lang b s2).
    { rewrite lang_cat. split.
      - intros H. apply lang_Cat_inv in H.
        destruct H as (s1 & s2 & E & H1 & H2).
        exists s1, s2. rewrite <- IHa. auto.
      - intros (s1 & s2 & -> & H1 & H2). constructor; [|assumption].
        apply IHa. assumption. }
    assert (Hsplit : lang (Re.Cat a b) (String c s) <->
                     (exists s1 s2, s = (s1 ++ s2)%string
                                    /\ lang a (String c s1) /\ lang b s2)
                     \/ (lang a "" /\ lang b (String c s))).
    { split.
      - intros H. apply lang_Cat_inv in H.
        destruct H as ([|d s1] & s2 & E & H1 & H2); simpl in E.
        + right. subst. auto.
        + injection E as -> ->. left. eauto.
      - intros [(s1 & s2 & -> & H1 & H2)|[H1 H2]].
        + exact (lang_Cat a b (String c s1) s2 H1 H2).
        + exact (lang_Cat a b "" (String c s) H1 H2). }
    rewrite Hsplit. destruct (Re.nullable a) eqn:N.
    + rewrite lang_alt. apply nullable_lang in N. split.
      * intros H. apply lang_Alt_inv in H. destruct H as [H|H].
        -- left. apply Hfirst. assumption.
        -- right. split; [assumption|]. apply IHb. assumption.
      * intros [H|[_ H]].
        -- apply lang_AltL. apply Hfirst. assumption.
        -- apply lang_AltR. apply IHb. assumption.
    + rewrite Hfirst. split; [auto|].
      intros [H|[H _]]; [assumption|].
      apply nullable_lang in H. congruence.
  - rewrite lang_alt. split.
    + intros H. apply lang_Alt_inv in H.
      destruct H as [H|H]; [apply lang_AltL, IHa | apply lang_AltR, IHb];
        assumption.
    + intros H. apply lang_Alt_inv in H.
      destruct H as [H|H]; [apply lang_AltL, IHa | apply lang_AltR, IHb];
        assumption.
  - rewrite lang_cat. split.
    + intros H. apply lang_Cat_inv in H.
      destruct H as (s1 & s2 & -> & H1 & H2). apply IHa in H1.
      exact (lang_StarCons a (String c s1) s2 H1 H2).
    + intros H. apply lang_Star_cons_inv in H.
      destruct H as (s1 & s2 & -> & H1 & H2).
      constructor; [apply IHa|]; assumption.
Qed.

(** The matcher decides the denotation. *)
Lemma matches_lang s : forall r, Re.matches r s = true <-> lang r s.
Proof.
  induction s as [|c s IH]; intros r; cbn [Re.matches].
  - apply nullable_lang.
  - rewrite IH. apply deriv_lang.
Qed.

Lemma lang_any_star s : lang (Re.Star Re.any) s.
Proof.
  induction s as [|c s IH]; [constructor|].
  exact (lang_StarCons Re.any (String c "") s
           (lang_Cls (fun _ => true) c eq_refl) IH).
Qed.

(** [search] finds a match exactly when some substring is denoted. *)
Lemma search_lang r s :
  Re.search r s = true <->
  exists pre m post, s = (pre ++ m ++ post)%string /\ lang r m.
Proof.
  unfold Re.search. rewrite matches_lang. split.
  - intros H. apply lang_Cat_inv in H.
    destruct H as (pre & t & -> & _ & H). apply lang_Cat_inv in H.
    destruct H as (m & post & -> & H & _). eauto.
  - intros (pre & m & post & -> & H).
    constructor; [apply lang_any_star|].
    constructor; [assumption | apply lang_any_star].
Qed.

Lemma lower_app (a b : string) :
  PyStr.lower (a ++ b) = (PyStr.lower a ++ PyStr.lower b)%string.
Proof.
  unfold PyStr.lower. induction a as [|c a IH]; simpl; congruence.
Qed.

Lemma lang_lit_i w : forall s,
  lang (Re.lit_i w) s <-> PyStr.lower s = PyStr.lower w.
Proof.
  induction w as [|c w IH]; intros s; cbn [Re.lit_i].
  - split.
    + intros H. apply lang_Eps_inv in H. subst. reflexivity.
    + destruct s; [constructor | discriminate].
  - split.
    + intros H. apply lang_Cat_inv in H.
      destruct H as (s1 & s2 & -> & H1 & H2).
      apply lang_Cls_inv in H1. destruct H1 as (a & -> & Ha).
      apply Ascii.eqb_eq in Ha. apply IH in H2.
      unfold PyStr.lower in *. simpl. rewrite Ha, H2. reflexivity.
    + destruct s as [|a s]; [discriminate|].
      unfold PyStr.lower in *. simpl. intros E.
      injection E as Ea Es.
      apply (lang_Cat (Re.chr_i c) (Re.lit_i w) (String a "") s).
      * constructor. apply Ascii.eqb_eq. assumption.
      * apply IH. assumption.
Qed.

Lemma lang_star_cls f s :
  lang (Re.Star (Re.Cls f)) s <-> all_chars f s = true.
Proof.
  split.
  - intros H. remember (Re.Star (Re.Cls f)) as r eqn:Er.
    induction H as [|g d Hd|x y u t Hu IHu Ht IHt|x y u Hu IHu
                    |x y u Hu IHu|x|x u t Hu IHu Ht IHt];
      try discriminate Er.
    + reflexivity.
    + injection Er as ->. apply lang_Cls_inv in Hu.
      destruct Hu as (c & -> & Hc). simpl. rewrite Hc. auto.
  - induction s as [|c s IH]; cbn [all_chars]; intros H; [constructor|].
    apply andb_true_iff in H. destruct H as [Hc Hs].
    exact (lang_StarCons (Re.Cls f) (String c "") s
             (lang_Cls f c Hc) (IH Hs)).
Qed.

Lemma lang_plus_cls f s :
  lang (Re.plus (Re.Cls f)) s <-> s <> "" /\ all_chars f s = true.
Proof.
  unfold Re.plus. split.
  - intros H. apply lang_Cat_inv in H.
    destruct H as (s1 & s2 & -> & H1 & H2).
    apply lang_Cls_inv in H1. destruct H1 as (c & -> & Hc).
    apply lang_star_cls in H2. simpl. rewrite Hc, H2.
    split; [discriminate | reflexivity].
  - intros [Hne H]. destruct s as [|c s]; [congruence|].
    cbn [all_chars] in H. apply andb_true_iff in H. destruct H as [Hc Hs].
    apply (lang_Cat (Re.Cls f) (Re.Star (Re.Cls f)) (String c "") s).
    + constructor. assumption.
    + apply lang_star_cls. assumption.
Qed.

Lemma lang_dquote_i s : lang (Re.chr_i Re.dquote) s <-> s = Json.q.
Proof.
  split.
  - intros H. apply lang_Cls_inv in H. destruct H as (a & -> & Ha).
    apply Ascii.eqb_eq in Ha. unfold Json.q. f_equal.
    destruct a as [[] [] [] [] [] [] [] []]; vm_compute in Ha;
      try discriminate Ha; reflexivity.
  - intros ->. constructor. reflexivity.
Qed.

Lemma lang_version_key s :
  lang (Re.Alt (Re.lit_i "version") (Re.lit_i "Version")) s <->
  PyStr.lower s = "version".
Proof.
  split.
  - intros H. apply lang_Alt_inv in H.
    destruct H as [H|H]; apply lang_lit_i in H; exact H.
  - intros H. apply lang_AltL. apply lang_lit_i. exact H.
Qed.

(** X22. In ASCII text the version pattern only matches where the key is
    written between double quotes: if the lower-cased text does not contain
    ["version"], quotes included, the search finds nothing.  A bare key,
    as TOML writes it, is never found. *)
Theorem version_pattern_needs_quoted_key (text : string) :
  ascii_text text = true ->
  Re.search version_pattern text = true ->
  PyStr.contains (Json.q ++ "version" ++ Json.q) (PyStr.lower text) = true.
Proof.
  intros _ H. apply search_lang in H.
  destruct H as (pre & m & post & -> & H).
  unfold version_pattern, Re.seq in H. cbn [fold_right] in H.
  apply lang_Cat_inv in H. destruct H as (m1 & r1 & -> & H1 & H).
  apply lang_Cat_inv in H. destruct H as (m2 & r2 & -> & H2 & H).
  apply lang_Cat_inv in H. destruct H as (m3 & r3 & -> & H3 & _).
  apply lang_dquote_i in H1, H3. apply lang_version_key in H2. subst.
  rewrite !lower_app, H2.
  change (PyStr.lower Json.q) with Json.q.
  rewrite <- (append_assoc "version" Json.q).
  rewrite <- (append_assoc Json.q ("version" ++ Json.q)).
  rewrite (append_assoc (Json.q ++ "version" ++ Json.q)).
  apply contains_app.
Qed.

Lemma version_pattern_needs_quoted_key_witness :
  PyStr.contains (Json.q ++ "version" ++ Json.q)
    (PyStr.lower Samples.package_text) = true.
Proof.
  apply (version_pattern_needs_quoted_key Samples.package_text);
    vm_compute; reflexivity.
Defined.

(** X23. The version pattern finds every JSON-style field: the key
    [version] in any letter case between double quotes, optional white
    space around the colon, and a quoted value made of digits and dots
    that ends with a digit and has at least two characters. *)
Theorem version_pattern_finds_json_field
    (pre key ws1 ws2 v post : string) (d : ascii) :
  PyStr.lower key = "version" ->
  all_chars Re.is_space ws1 = true ->
  all_chars Re.is_space ws2 = true ->
  v <> "" ->
  all_chars (fun c => Re.is_digit c || Ascii.eqb c ".") v = true ->
  Re.is_digit d = true ->
  Re.search version_pattern
    (pre ++ (Json.q ++ key ++ Json.q ++ ws1 ++ ":" ++ ws2
             ++ Json.q ++ v ++ String d Json.q) ++ post)
  = true.
Proof.
  intros Hk H1 H2 Hv Hd Hdig. apply search_lang.
  eexists pre, _, post. split; [reflexivity|].
  unfold version_pattern, Re.seq. cbn [fold_right].
  apply lang_Cat; [apply lang_dquote_i; reflexivity|].
  apply lang_Cat; [apply lang_version_key; assumption|].
  apply lang_Cat; [apply lang_dquote_i; reflexivity|].
  apply lang_Cat; [apply lang_star_cls; assumption|].
  apply (lang_Cat _ _ ":"); [constructor; reflexivity|].
  apply lang_Cat; [apply lang_star_cls; assumption|].
  apply lang_Cat.
  { apply lang_AltL. constructor. reflexivity. }
  apply lang_Cat; [apply lang_plus_cls; split; assumption|].
  apply (lang_Cat _ _ (String d "") Json.q).
  { constructor. assumption. }
  apply (lang_Cat _ _ Json.q "").
  { apply lang_AltL. constructor. reflexivity. }
  constructor.
Qed.

Lemma version_pattern_finds_json_field_witness :
  Re.search version_pattern
    ("{" ++ (Json.q ++ "Version" ++ Json.q ++ "" ++ ":" ++ " "
             ++ Json.q ++ "10.4." ++ String "2"%char Json.q) ++ "}")
  = true.
Proof.
  apply (version_pattern_finds_json_field "{" "Version" "" " " "10.4." "}"
           "2"%char); try reflexivity.
  discriminate.
Defined.

(** X24. In ASCII text the project-file pattern finds exactly the
    [<Version>] elements,
    the tags in any letter case, whose content is a non-empty run of
    digits and dots; an element with any other content, or an empty one,
    is not found. *)
Theorem version_csproj_search_iff (text : string) :
  ascii_text text = true ->
  Re.search version_csproj text = true <->
  exists pre open v close post,
    text = (pre ++ (open ++ v ++ close) ++ post)%string
    /\ PyStr.lower open = "<version>"
    /\ PyStr.lower close = "</version>"
    /\ v <> ""
    /\ all_chars (fun c => Re.is_digit c || Ascii.eqb c ".") v = true.
Proof.
  intros _. rewrite search_lang. unfold version_csproj, Re.seq.
  cbn [fold_right]. split.
  - intros (pre & m & post & -> & H).
    apply lang_Cat_inv in H. destruct H as (o & r1 & -> & Ho & H).
    apply lang_Cat_inv in H. destruct H as (v & r2 & -> & Hv & H).
    apply lang_Cat_inv in H. destruct H as (c & r3 & -> & Hc & H).
    apply lang_Eps_inv in H. subst r3.
    apply lang_lit_i in Ho, Hc. apply lang_plus_cls in Hv.
    destruct Hv as [Hne Hall].
    exists pre, o, v, c, post. rewrite append_nil_r. auto.
  - intros (pre & o & v & c & post & -> & Ho & Hc & Hne & Hall).
    exists pre, (o ++ v ++ c)%string, post. split; [reflexivity|].
    apply lang_Cat; [apply lang_lit_i; exact Ho|].
    apply lang_Cat; [apply lang_plus_cls; auto|].
    rewrite <- (append_nil_r c).
    apply lang_Cat; [apply lang_lit_i; exact Hc | constructor].
Qed.

(** ** The ci check and the threshold *)

Lemma version_csproj_search_iff_witness :
  Re.search version_csproj "<Project><version>1.0</VERSION></Project>"
  = true
  <-> exists pre open v close post,
        "<Project><version>1.0</VERSION></Project>"
        = (pre ++ (open ++ v ++ close) ++ post)%string
        /\ PyStr.lower open = "<version>"
        /\ PyStr.lower close = "</version>"
        /\ v <> ""
        /\ all_chars (fun c => Re.is_digit c || Ascii.eqb c ".") v = true.
Proof.
  apply (version_csproj_search_iff
           "<Project><version>1.0</VERSION></Project>").
  reflexivity.
Defined.

(** X25. The ci check passes exactly when [.github/workflows] is a
    directory that lists an entry with suffix [.yml] or [.yaml] in any
    letter case, or [.gitlab-ci.yml] is a regular file at the top; the
    workflows entry, when there is one, is the evidence. *)
Theorem ci_passes_iff (fs : repo) (c : CheckResult) :
  check_ci fs = Ok c ->
  (passed c = true <->
   (exists names n,
       is_dir fs workflows = Ok true /\ iterdir fs workflows = Ok names
       /\ In n names /\ yaml_suffix (workflows ++ [n]) = true)
   \/ is_file fs [".gitlab-ci.yml"] = Ok true)
  /\ ((exists names n,
         iterdir fs workflows = Ok names /\ In n names
         /\ yaml_suffix (workflows ++ [n]) = true) ->
      evidence c <> ".gitlab-ci.yml").
Proof.
  intros H. unfold check_ci in H.
  apply bind_ok in H. destruct H as (d & Hd & H).
  apply bind_ok in H. destruct H as (hit & Hh & H).
  assert (Hhit : forall f, hit = Some f ->
            exists names n,
              d = true /\ iterdir fs workflows = Ok names /\ In n names
              /\ f = workflows ++ [n] /\ yaml_suffix f = true).
  { intros f ->. destruct d; [|discriminate].
    apply bind_ok in Hh. destruct Hh as (names & Hn & Hf).
    apply Ok_inj in Hf. apply find_some in Hf. destruct Hf as [Hin Hy].
    apply in_map_iff in Hin. destruct Hin as (n & <- & Hin).
    exists names, n. auto. }
  assert (Hnone : hit = None -> forall names n,
            is_dir fs workflows = Ok true ->
            iterdir fs workflows = Ok names -> In n names ->
            yaml_suffix (workflows ++ [n]) = true -> False).
  { intros -> names n Hd' Hn Hin Hy.
    rewrite Hd in Hd'. apply Ok_inj in Hd'. subst d.
    rewrite Hn in Hh. cbn [bind] in Hh. apply Ok_inj in Hh.
    pose proof (find_none _ _ Hh (workflows ++ [n])) as Hf.
    rewrite Hf in Hy; [discriminate|].
    apply in_map_iff. exists n. auto. }
  destruct hit as [f|].
  - destruct (Hhit f eq_refl) as (names & n & -> & Hn & Hin & -> & Hy).
    apply Ok_inj in H. subst c. split.
    + split; [intros _|reflexivity]. left. exists names, n. auto.
    + intros _. cbn. discriminate.
  - apply bind_ok in H. destruct H as (g & Hg & H). split.
    + destruct g; apply Ok_inj in H; subst c.
      * split; [auto | reflexivity].
      * split; [discriminate|].
        intros [(names & n & Hd' & Hn & Hin & Hy)|Hx];
          [exfalso; eapply Hnone; eauto | congruence].
    + intros (names & n & Hn & Hin & Hy). exfalso.
      assert (d = true).
      { unfold is_dir in Hd. unfold iterdir in Hn.
        destruct (lookup (root_node fs) workflows) as [[?|? ? ?]| |];
          try discriminate. apply Ok_inj in Hd. auto. }
      subst d. eapply Hnone; eauto.
Qed.

Lemma ci_passes_iff_witness :
  passed (ci_result (Some ".github/workflows/ci.yml")) = true <->
  (exists names n,
      is_dir Samples.four_files workflows = Ok true
      /\ iterdir Samples.four_files workflows = Ok names
      /\ In n names /\ yaml_suffix (workflows ++ [n]) = true)
  \/ is_file Samples.four_files [".gitlab-ci.yml"] = Ok true.
Proof.
  apply (ci_passes_iff Samples.four_files). reflexivity.
Defined.

(** X26. The gate is monotone in the threshold: when a run with threshold
    [n] returns 0, the same run with any smaller threshold, or with none,
    returns 0 as well. *)
Theorem gate_monotone_in_threshold
    (fmt : out_format) (t : target) (now : string) (n m : Z) :
  (m <= n)%Z ->
  snd (main (mkArgs fmt (Some n)) t now) = Ok 0%Z ->
  snd (main (mkArgs fmt (Some m)) t now) = Ok 0%Z
  /\ snd (main (mkArgs fmt None) t now) = Ok 0%Z.
Proof.
  intros Hle. unfold main. destruct t as [| |fs]; cbn [snd];
    try discriminate.
  destruct (iterdir fs []) as [names|[]]; cbn [snd]; try discriminate.
  destruct (run_all_checks fs) as [cs|e]; cbn [snd min_score];
    try discriminate.
  destruct (compute_score cs <? n)%Z eqn:L; cbn [snd]; [discriminate|].
  intros _. apply Z.ltb_ge in L.
  assert (E : (compute_score cs <? m)%Z = false) by (apply Z.ltb_ge; lia).
  rewrite E. auto.
Qed.

Lemma gate_monotone_in_threshold_witness :
  snd (main (mkArgs json (Some 40%Z)) (Directory Samples.four_files)
            Samples.noon) = Ok 0%Z
  /\ snd (main (mkArgs json None) (Directory Samples.four_files)
               Samples.noon) = Ok 0%Z.
Proof.
  apply (gate_monotone_in_threshold json (Directory Samples.four_files)
           Samples.noon 45 40); [lia | vm_compute; reflexivity].
Defined.

Lemma compute_score_order_free_witness :
  compute_score ([readme_result (Some "README.md")]
                 ++ [license_result None])
  = (compute_score [readme_result (Some "README.md")]
     + compute_score [license_result None])%Z
  /\ compute_score [readme_result (Some "README.md"); license_result None]
     = compute_score [license_result None;
                      readme_result (Some "README.md")].
Proof.
  destruct (compute_score_order_free
              [readme_result (Some "README.md")] [license_result None])
    as [H _].
  destruct (compute_score_order_free
              [readme_result (Some "README.md"); license_result None]
              [license_result None; readme_result (Some "README.md")])
    as [_ P].
  split; [exact H|]. apply P. apply perm_swap.
Defined.

Lemma report_counts_partition_witness :
  exists cs,
    run_all_checks Samples.four_files = Ok cs
    /\ (passed_count (build_report Samples.four_files cs 45 Samples.noon)
        + failed_count (build_report Samples.four_files cs 45 Samples.noon)
        = 10)%Z.
Proof.
  eexists. split; [vm_compute; reflexivity|].
  apply (report_counts_partition Samples.four_files _ 45 Samples.noon).
  vm_compute; reflexivity.
Defined.
